(** * Pricing engine of app-backend/app.py

    A shallow embedding of the input validators, the two pricing formulas
    and the [/calculate] handler of [app-backend/app.py], together with the
    properties of the pricing specification that are settled against them.

    Python floats are IEEE 754 binary64 values.  They are modelled bit for
    bit with the executable specification [SpecFloat] of the standard
    library (precision 53, maximal exponent 1024, round to nearest even), so
    that every formula can be evaluated on concrete inputs. *)

From Stdlib Require Import ZArith QArith Qpower Lia Lqa Bool List Ascii String.
From Stdlib Require Import Floats.SpecFloat.
From stdpp Require Import gmap strings.

Local Open Scope Z_scope.

(** ** Binary64 arithmetic *)

Module F64.

Definition prec : Z := 53.
Definition emax : Z := 1024.

Definition add : spec_float -> spec_float -> spec_float := SFadd prec emax.
Definition sub : spec_float -> spec_float -> spec_float := SFsub prec emax.
Definition mul : spec_float -> spec_float -> spec_float := SFmul prec emax.
Definition div : spec_float -> spec_float -> spec_float := SFdiv prec emax.

Definition ltb : spec_float -> spec_float -> bool := SFltb.
Definition leb : spec_float -> spec_float -> bool := SFleb.
Definition eqb : spec_float -> spec_float -> bool := SFeqb.

Definition valid (x : spec_float) : bool := valid_binary prec emax x.

Definition is_nan (x : spec_float) : bool :=
  match x with S754_nan => true | _ => false end.

Definition is_zero (x : spec_float) : bool :=
  match x with S754_zero _ => true | _ => false end.

Definition is_finite (x : spec_float) : bool :=
  match x with S754_zero _ | S754_finite _ _ _ => true | _ => false end.

(** The double nearest to an integer (ties to even); an infinity when the
    integer is out of range. *)
Definition of_Z (z : Z) : spec_float := binary_normalize prec emax z 0 false.

(** The double nearest to [m * 10 ^ e], for [0 <= m]: what a decimal
    literal or a decimal string denotes. *)
Definition of_decimal (m e : Z) : spec_float :=
  match m with
  | Zpos p =>
      if 0 <=? e then of_Z (m * 10 ^ e)
      else div (S754_finite false p 0)
               (S754_finite false (Z.to_pos (10 ^ (- e))) 0)
  | _ => S754_zero false
  end.

Definition opp : spec_float -> spec_float := SFopp.

Definition zero : spec_float := S754_zero false.

End F64.

Declare Scope f64_scope.
Delimit Scope f64_scope with f64.
Infix "+" := F64.add : f64_scope.
Infix "-" := F64.sub : f64_scope.
Infix "*" := F64.mul : f64_scope.
Infix "/" := F64.div : f64_scope.
Infix "<?" := F64.ltb : f64_scope.

(** ** Python values, exceptions and results *)

(** The values a decoded JSON document is made of. *)
#[local] Set Warnings "-register-all".
Inductive pyval : Type :=
  | VNone
  | VBool (b : bool)
  | VInt (z : Z)
  | VFloat (f : spec_float)
  | VStr (s : string)
  | VList (l : list pyval)
  | VDict (kvs : list (string * pyval)).
#[local] Set Warnings "register-all".

(** The exceptions the modelled code can raise, each with its message (the
    handler copies the message of a [ValueError] into the response). *)
Inductive exn : Type :=
  | ValueError (msg : string)
  | TypeError (msg : string)
  | OverflowError (msg : string)
  | ZeroDivisionError (msg : string)
  | AttributeError (msg : string).

Inductive result (A : Type) : Type :=
  | Ok (a : A)
  | Raise (e : exn).
Arguments Ok {A} a.
Arguments Raise {A} e.

Definition bind {A B : Type} (r : result A) (k : A -> result B) : result B :=
  match r with
  | Ok a => k a
  | Raise e => Raise e
  end.

Notation "'let*' x := r 'in' k" := (bind r (fun x => k))
  (at level 10, x name, r at level 100, k at level 200).

Definition returns {A : Type} (r : result A) : Prop :=
  match r with Ok _ => True | Raise _ => False end.

(** ** Python builtins used by the code *)

(** *** [float()] on strings

    The string is taken as a sequence of ASCII characters.  As in CPython,
    underscores are checked and removed first (each one sits between two
    digits), then surrounding white space is stripped, and what is left
    must be, in full, an optionally signed [inf], [infinity] or [nan] in
    any letter case, or a decimal number with an optional exponent.  The
    result is the correctly rounded double; overflow gives an infinity. *)

Definition code (c : ascii) : Z := Z.of_N (N_of_ascii c).

Definition is_space (c : ascii) : bool :=
  ((9 <=? code c) && (code c <=? 13)) || (code c =? 32).

Definition is_digit (c : ascii) : bool :=
  (48 <=? code c) && (code c <=? 57).

Definition digit_value (c : ascii) : Z := code c - 48.

Definition to_lower (c : ascii) : ascii :=
  if (65 <=? code c) && (code c <=? 90)
  then ascii_of_N (Z.to_N (code c + 32)) else c.

Definition is_char (x : ascii) (c : ascii) : bool := code c =? code x.

(** [prev] is the previous character, if any. *)
Fixpoint remove_underscores (prev : option ascii) (l : list ascii)
  : option (list ascii) :=
  match l with
  | [] =>
      match prev with
      | Some p => if is_char "_" p then None else Some []
      | None => Some []
      end
  | c :: l' =>
      let prev_digit := match prev with Some p => is_digit p | None => false end in
      let prev_underscore := match prev with Some p => is_char "_" p | None => false end in
      if is_char "_" c then
        if prev_digit then remove_underscores (Some c) l' else None
      else if prev_underscore && negb (is_digit c) then None
      else option_map (cons c) (remove_underscores (Some c) l')
  end.

Fixpoint drop_spaces (l : list ascii) : list ascii :=
  match l with
  | c :: l' => if is_space c then drop_spaces l' else l
  | [] => []
  end.

Definition strip (l : list ascii) : list ascii :=
  rev (drop_spaces (rev (drop_spaces l))).

(** Reads a run of decimal digits: the number read so far, how many digits
    were read, and the rest of the input. *)
Fixpoint read_digits (l : list ascii) (acc : Z) (n : Z) : Z * Z * list ascii :=
  match l with
  | c :: l' => if is_digit c then read_digits l' (10 * acc + digit_value c) (n + 1)
               else (acc, n, l)
  | [] => (acc, n, [])
  end.

Definition read_sign (l : list ascii) : bool * list ascii :=
  match l with
  | c :: l' => if is_char "-" c then (true, l')
               else if is_char "+" c then (false, l')
               else (false, l)
  | [] => (false, [])
  end.

Definition with_sign (s : bool) (x : spec_float) : spec_float :=
  if s then F64.opp x else x.

Definition lower_string (l : list ascii) : string :=
  string_of_list_ascii (map to_lower l).

(** The optional exponent of a decimal number.  A letter [e] that is not
    followed by at least one digit is not part of the number. *)
Definition read_exponent (l : list ascii) : Z * list ascii :=
  match l with
  | c :: l' =>
      if is_char "e" (to_lower c) then
        let '(neg, l'') := read_sign l' in
        let '(v, n, rest) := read_digits l'' 0 0 in
        if 0 <? n then ((if neg then - v else v), rest) else (0, l)
      else (0, l)
  | [] => (0, [])
  end.

Definition parse_decimal (l : list ascii) : option spec_float :=
  let '(neg, l1) := read_sign l in
  let '(ip, ni, l2) := read_digits l1 0 0 in
  let '(m, nf, l3) :=
    match l2 with
    | c :: l2' => if is_char "." c then
                    let '(m, n, r) := read_digits l2' ip 0 in (m, n, r)
                  else (ip, 0, l2)
    | [] => (ip, 0, [])
    end in
  if ni + nf =? 0 then None
  else
    let '(ex, l4) := read_exponent l3 in
    match l4 with
    | [] => Some (with_sign neg (F64.of_decimal m (ex - nf)))
    | _ => None
    end.

Definition parse_inf_or_nan (l : list ascii) : option spec_float :=
  let '(neg, l1) := read_sign l in
  let w := lower_string l1 in
  if (String.eqb w "inf" || String.eqb w "infinity")%bool
  then Some (S754_infinity neg)
  else if String.eqb w "nan" then Some S754_nan
  else None.

Definition float_of_string (s : string) : option spec_float :=
  match remove_underscores None (list_ascii_of_string s) with
  | None => None
  | Some l =>
      let l' := strip l in
      match parse_inf_or_nan l' with
      | Some x => Some x
      | None => parse_decimal l'
      end
  end.

(** *** [float()], [math.ceil], [round], [min], true division *)

(** Conversion of a Python integer to a float, as arithmetic between an
    [int] and a [float] performs it. *)
Definition float_of_int (z : Z) : result spec_float :=
  match F64.of_Z z with
  | S754_infinity _ => Raise (OverflowError "int too large to convert to float")
  | x => Ok x
  end.

Definition py_float (v : pyval) : result spec_float :=
  match v with
  | VFloat f => Ok f
  | VInt z => float_of_int z
  | VBool b => Ok (F64.of_Z (if b then 1 else 0))
  | VStr s =>
      match float_of_string s with
      | Some x => Ok x
      | None => Raise (ValueError "could not convert string to float")
      end
  | _ => Raise (TypeError "float() argument must be a string or a real number")
  end.

(** [isinstance(value, (int, float, str))]; a [bool] is an [int]. *)
Definition is_int_float_str (v : pyval) : bool :=
  match v with
  | VBool _ | VInt _ | VFloat _ | VStr _ => true
  | _ => false
  end.

(** The integer value [s * m * 2 ^ e] rounded up. *)
Definition ceil_finite (s : bool) (m : positive) (e : Z) : Z :=
  let n := if s then Zneg m else Zpos m in
  if 0 <=? e then n * 2 ^ e else - ((- n) / 2 ^ (- e)).

Definition math_ceil (x : spec_float) : result Z :=
  match x with
  | S754_nan => Raise (ValueError "cannot convert float NaN to integer")
  | S754_infinity _ => Raise (OverflowError "cannot convert float infinity to integer")
  | S754_zero _ => Ok 0
  | S754_finite s m e => Ok (ceil_finite s m e)
  end.

(** [n / d] rounded to the nearest integer, ties to even ([0 <= n], [0 < d]). *)
Definition round_half_even_div (n d : Z) : Z :=
  let q := n / d in
  match 2 * (n mod d) ?= d with
  | Lt => q
  | Gt => q + 1
  | Eq => if Z.even q then q else q + 1
  end.

(** [round(x, ndigits)] on a float, for [0 <= ndigits]: the exact value of
    [x] is rounded to [ndigits] decimal places, ties to even, and the
    decimal result is converted back to the nearest double.  An
    integer-valued double is its own rounding; infinities and NaN round to
    themselves.  (The overflow check CPython makes on the converted value
    can only fire for a negative [ndigits]; the formulas use 0, 1 and 2.) *)
Definition py_round (x : spec_float) (ndigits : Z) : spec_float :=
  match x with
  | S754_finite s m e =>
      if 0 <=? e then x
      else
        let q := round_half_even_div (Zpos m * 10 ^ ndigits) (2 ^ (- e)) in
        with_sign s (F64.of_decimal q (- ndigits))
  | _ => x
  end.

(** [min(a, x)]: [x] replaces [a] only when [x < a]. *)
Definition py_min (a x : spec_float) : spec_float :=
  if (x <? a)%f64 then x else a.

(** [x / y] on floats. *)
Definition truediv (x y : spec_float) : result spec_float :=
  if F64.is_zero y then Raise (ZeroDivisionError "float division by zero")
  else Ok (x / y)%f64.

(** Literals.  An integer literal that meets a float in an operation is
    converted exactly (all of them are small); [lit m e] is the decimal
    literal [m * 10 ^ e]. *)
Definition int (z : Z) : spec_float := F64.of_Z z.
Definition lit (m e : Z) : spec_float := F64.of_decimal m e.

(** ** The multiplier table *)

Inductive attribute : Type :=
  | maleSupport
  | productShape
  | bottleSize
  | packingMaterial
  | importOrigin.

(** The entries [1] of the table are Python integers.  Every product they
    enter either has a float operand, where [1] is converted to [1.0], or
    has only such entries as operands and equals [1]: writing them as
    floats gives the same results. *)
Definition MULTIPLIERS (a : attribute) : list (string * spec_float) :=
  match a with
  | maleSupport => [("Yes", lit 125 (-2)); ("No", int 1)]
  | productShape =>
      [("Capsules/Tablets", int 1); ("Softgels/Chews", int 1);
       ("Powder/Creamy", int 1); ("Gummies", lit 11 (-1));
       ("Liquid", lit 105 (-2)); ("Injection", lit 12 (-1))]
  | bottleSize =>
      [("Small", lit 9 (-1)); ("Normal", int 1); ("Big", lit 11 (-1));
       ("Massive", lit 12 (-1))]
  | packingMaterial =>
      [("Plastic", int 1); ("Glass", lit 112 (-2)); ("Paper", lit 106 (-2))]
  | importOrigin => [("US", int 1); ("UK", lit 125 (-2)); ("EU", lit 11 (-1))]
  end%string.

Fixpoint assoc (k : string) (t : list (string * spec_float)) : option spec_float :=
  match t with
  | [] => None
  | (k', v) :: t' => if String.eqb k k' then Some v else assoc k t'
  end.

(** [table.get(key, default)] on a dictionary with string keys: a list or a
    dictionary cannot be hashed, any other value that is not a key gives
    the default. *)
Definition table_get (t : list (string * spec_float)) (key : pyval)
    (default : spec_float) : result spec_float :=
  match key with
  | VStr s => Ok (match assoc s t with Some v => v | None => default end)
  | VList _ => Raise (TypeError "unhashable type: 'list'")
  | VDict _ => Raise (TypeError "unhashable type: 'dict'")
  | _ => Ok default
  end.

(** [inputs.get(key)] and [inputs.get(key, default)]. *)
Definition dict_get (inputs : gmap string pyval) (key : string) : pyval :=
  match inputs !! key with Some v => v | None => VNone end.

Definition dict_get_default (inputs : gmap string pyval) (key : string)
    (default : pyval) : pyval :=
  match inputs !! key with Some v => v | None => default end.

(** ** Input validation (app.py, lines 131-164) *)

(** The body of the loop, which the two validators share word for word.
    The [ValueError] raised for a negative value is raised inside the [try]
    block, so the handler of that block replaces it; an [OverflowError] of
    [float()] is not caught there. *)
Definition validate_field (data : gmap string pyval) (field : string)
  : result unit :=
  match data !! field with
  | None => Raise (ValueError ("Missing required field: " ++ field))
  | Some value =>
      if negb (is_int_float_str value)
      then Raise (ValueError ("Invalid type for " ++ field))
      else
        match py_float value with
        | Ok float_val =>
            if (float_val <? int 0)%f64
            then Raise (ValueError ("Invalid numeric value for " ++ field))
            else Ok tt
        | Raise (ValueError _) | Raise (TypeError _) =>
            Raise (ValueError ("Invalid numeric value for " ++ field))
        | Raise e => Raise e
        end
  end.

Fixpoint validate_fields (data : gmap string pyval) (required_fields : list string)
  : result bool :=
  match required_fields with
  | [] => Ok true
  | field :: rest =>
      let* _ := validate_field data field in
      validate_fields data rest
  end.

Definition supplement_required_fields : list string :=
  ["purchasePrice"; "fxRate"; "weightGrams"; "count"; "dailyDose"]%string.

Definition device_required_fields : list string :=
  ["purchasePrice"; "fxRate"; "lengthCm"; "widthCm"; "heightCm"; "weightKg"]%string.

Definition validate_supplement_inputs (data : gmap string pyval) : result bool :=
  validate_fields data supplement_required_fields.

Definition validate_device_inputs (data : gmap string pyval) : result bool :=
  validate_fields data device_required_fields.

(** ** The pricing formulas (app.py, lines 178-286) *)

Record breakdown : Type := {
  baseCost : spec_float;
  totalCost : spec_float;
  finalPrice : Z;
  profit : spec_float;
  margin : spec_float
}.

(** Lines 197-205: the cost of the product and of its weight, with the
    operating overhead. *)
Definition adjusted_cost (purchasePrice xfactor fxRate weightGrams : spec_float)
  : result spec_float :=
  let base_product_egp := (purchasePrice * xfactor * fxRate)%f64 in
  let* weight_cost := truediv (weightGrams * int 32 * fxRate)%f64 (int 1000) in
  Ok (int 380 + lit 14 (-1) * (base_product_egp + weight_cost))%f64.

(** Line 210: the guarded division. *)
Definition days_supply (count dailyDose : spec_float) : result spec_float :=
  if (int 0 <? dailyDose)%f64 then truediv count dailyDose else Ok (int 30).

(** Line 211. *)
Definition months_supply (days_supply : spec_float) : result spec_float :=
  truediv days_supply (int 30).

(** Lines 214-220: the factor and its clamp. *)
Definition dose_factor (months_supply : spec_float) : result spec_float :=
  let* dose_factor :=
    if (int 0 <? months_supply)%f64 then truediv (int 3) months_supply
    else Ok (int 3) in
  Ok (py_min (int 3) dose_factor).

(** Line 222. *)
Definition dosage_adj (dose_factor : spec_float) : spec_float :=
  (int 50 * (int 3 - dose_factor))%f64.

(** Lines 196-225: steps 2 to 6 of the supplement formula, from the
    converted inputs and the combined multiplier to the unrounded cost. *)
Definition supplement_total_cost
    (purchasePrice fxRate weightGrams count dailyDose xfactor : spec_float)
  : result spec_float :=
  let* adjusted_cost := adjusted_cost purchasePrice xfactor fxRate weightGrams in
  let* days_supply := days_supply count dailyDose in
  let* months_supply := months_supply days_supply in
  let* dose_factor := dose_factor months_supply in
  let dosage_adj := dosage_adj dose_factor in
  Ok (adjusted_cost + dosage_adj)%f64.

(** Lines 231 and 275: [total_cost * (1 + margin_percent)]. *)
Definition final_price_raw (total_cost margin_percent : spec_float) : spec_float :=
  (total_cost * (int 1 + margin_percent))%f64.

(** Lines 234 and 278: [math.ceil(final_price_raw / 50) * 50], a Python
    integer. *)
Definition round_up_to_50 (final_price_raw : spec_float) : result Z :=
  let* q := truediv final_price_raw (int 50) in
  let* c := math_ceil q in
  Ok (c * 50).

(** Lines 236-242 and 280-286: the dictionary that is returned.  The price
    is an integer, which [round(final_price, 0)] returns as it is; it is
    converted to a float where it meets [total_cost]. *)
Definition price_breakdown (base_cost total_cost : spec_float) (final_price : Z)
  : result breakdown :=
  let baseCost := py_round base_cost 2 in
  let totalCost := py_round total_cost 0 in
  let finalPrice := final_price in
  let* p := float_of_int final_price in
  let profit := py_round (p - total_cost)%f64 0 in
  let* p' := float_of_int final_price in
  let* d := float_of_int final_price in
  let* ratio := truediv (p' - total_cost)%f64 d in
  let margin := py_round (ratio * int 100)%f64 1 in
  Ok {| baseCost := baseCost; totalCost := totalCost; finalPrice := finalPrice;
        profit := profit; margin := margin |}.

Definition calculate_supplement_price (inputs : gmap string pyval)
  : result breakdown :=
  let* purchasePrice := py_float (dict_get_default inputs "purchasePrice" (VInt 0)) in
  let* fxRate := py_float (dict_get_default inputs "fxRate" (VInt 50)) in
  let* weightGrams := py_float (dict_get_default inputs "weightGrams" (VInt 0)) in
  let* count := py_float (dict_get_default inputs "count" (VInt 0)) in
  let* dailyDose := py_float (dict_get_default inputs "dailyDose" (VInt 1)) in
  let* shapeMult :=
    table_get (MULTIPLIERS productShape) (dict_get inputs "productShape") (int 1) in
  let* packMult :=
    table_get (MULTIPLIERS packingMaterial) (dict_get inputs "packingMaterial") (int 1) in
  let* sizeMult :=
    table_get (MULTIPLIERS bottleSize) (dict_get inputs "bottleSize") (int 1) in
  let* maleMult :=
    table_get (MULTIPLIERS maleSupport) (dict_get inputs "isMaleSupport") (int 1) in
  let* originMult :=
    table_get (MULTIPLIERS importOrigin) (dict_get inputs "importFrom") (int 1) in
  let xfactor := (shapeMult * packMult * sizeMult * maleMult * originMult)%f64 in
  let* total_cost :=
    supplement_total_cost purchasePrice fxRate weightGrams count dailyDose xfactor in
  let margin_percent := lit 37 (-2) in
  let* final_price := round_up_to_50 (final_price_raw total_cost margin_percent) in
  price_breakdown (purchasePrice * fxRate)%f64 total_cost final_price.

(** Lines 257-269: the device cost from the converted inputs. *)
Definition device_total_cost
    (purchasePrice fxRate l w h weight maleMult originMult : spec_float)
  : result spec_float :=
  let base_egp := (purchasePrice * fxRate)%f64 in
  let vol := (l * w * h)%f64 in
  let* vol_part := truediv vol (int 4000) in
  let dim_factor := (int 1 + vol_part + weight * int 2)%f64 in
  Ok (base_egp * dim_factor * maleMult * originMult)%f64.

Definition calculate_device_price (inputs : gmap string pyval)
  : result breakdown :=
  let* purchasePrice := py_float (dict_get_default inputs "purchasePrice" (VInt 0)) in
  let* fxRate := py_float (dict_get_default inputs "fxRate" (VInt 50)) in
  let* l := py_float (dict_get_default inputs "lengthCm" (VInt 0)) in
  let* w := py_float (dict_get_default inputs "widthCm" (VInt 0)) in
  let* h := py_float (dict_get_default inputs "heightCm" (VInt 0)) in
  let* weight := py_float (dict_get_default inputs "weightKg" (VInt 0)) in
  let* maleMult :=
    table_get (MULTIPLIERS maleSupport) (dict_get inputs "isMaleSupport") (int 1) in
  let* originMult :=
    table_get (MULTIPLIERS importOrigin) (dict_get inputs "importFrom") (int 1) in
  let* total_cost :=
    device_total_cost purchasePrice fxRate l w h weight maleMult originMult in
  let margin_percent := lit 15 (-2) in
  let* final_price := round_up_to_50 (final_price_raw total_cost margin_percent) in
  price_breakdown (purchasePrice * fxRate)%f64 total_cost final_price.

(** ** The [/calculate] handler (app.py, lines 288-331) *)

(** The decoded body of the request: a JSON object, or a JSON document of
    another kind. *)
Inductive json_body : Type :=
  | JObject (data : gmap string pyval)
  | JNonObject (v : pyval).

(** Truth value of a Python value. *)
Definition py_truthy (v : pyval) : bool :=
  match v with
  | VNone => false
  | VBool b => b
  | VInt z => negb (z =? 0)
  | VFloat f => negb (F64.is_zero f)
  | VStr s => negb (String.eqb s EmptyString)
  | VList l => match l with [] => false | _ => true end
  | VDict kvs => match kvs with [] => false | _ => true end
  end.

(** [v == s] for a string literal [s]. *)
Definition py_eq_str (v : pyval) (s : string) : bool :=
  match v with
  | VStr s' => String.eqb s' s
  | _ => false
  end.

(** A row of the [Calculation] table. *)
Record Calculation : Type := {
  category : string;
  inputs : gmap string pyval;
  results : breakdown
}.

(** What the handler calls, in the order of the calls. *)
Inductive event : Type :=
  | CallValidateSupplement
  | CallValidateDevice
  | CallCalculateSupplement
  | CallCalculateDevice
  | DbAdd (c : Calculation)
  | DbCommit
  | DbRollback
  | LogError (msg : string).

Inductive response : Type :=
  | JsonResults (b : breakdown)
  | JsonError (status : Z) (error : string) (message : option string)
  | Unhandled (e : exn).

Record outcome : Type := {
  resp : response;
  trace : list event;
  rows : list Calculation
}.

Definition str (e : exn) : string :=
  match e with
  | ValueError msg | TypeError msg | OverflowError msg
  | ZeroDivisionError msg | AttributeError msg => msg
  end.

(** The [try] block once the category is known to be one of the two.  The
    data base is taken to accept the row. *)
Definition calculate_and_store (debug : bool) (supplement : bool)
    (data : gmap string pyval) (db : list Calculation) : outcome :=
  let validated :=
    if supplement then validate_supplement_inputs data
    else validate_device_inputs data in
  let t1 := [if supplement then CallValidateSupplement else CallValidateDevice] in
  let r :=
    let* _ := validated in
    if supplement then calculate_supplement_price data
    else calculate_device_price data in
  let t2 :=
    match validated with
    | Ok _ => t1 ++ [if supplement then CallCalculateSupplement else CallCalculateDevice]
    | Raise _ => t1
    end in
  match r with
  | Ok results =>
      let new_calc :=
        {| category := if supplement then "supplement" else "device";
           inputs := data; results := results |} in
      {| resp := JsonResults results;
         trace := t2 ++ [DbAdd new_calc; DbCommit];
         rows := db ++ [new_calc] |}
  | Raise (ValueError msg) =>
      {| resp := JsonError 400 "Validation failed" (Some msg);
         trace := t2; rows := db |}
  | Raise e =>
      {| resp := JsonError 500 "Calculation failed"
                   (Some (if debug then str e else "Internal server error"));
         trace := t2 ++ [DbRollback; LogError ("Calculation error: " ++ str e)];
         rows := db |}
  end.

Definition handle_calculate (debug : bool) (request_json : json_body)
    (db : list Calculation) : outcome :=
  match request_json with
  | JNonObject v =>
      if negb (py_truthy v)
      then {| resp := JsonError 400 "No input data provided" None;
              trace := []; rows := db |}
      else {| resp := Unhandled (AttributeError "object has no attribute 'get'");
              trace := []; rows := db |}
  | JObject data =>
      if bool_decide (size data = 0%nat)
      then {| resp := JsonError 400 "No input data provided" None;
              trace := []; rows := db |}
      else
        let category := dict_get_default data "category" (VStr "supplement") in
        if negb (py_eq_str category "supplement" || py_eq_str category "device")
        then {| resp := JsonError 400
                          "Invalid category. Must be 'supplement' or 'device'" None;
                trace := []; rows := db |}
        else calculate_and_store debug (py_eq_str category "supplement") data db
  end.

(** ** Inputs of the specification's scenarios *)

Definition supplement_scenario : gmap string pyval :=
  list_to_map
    [("purchasePrice", VInt 10); ("fxRate", VInt 50); ("weightGrams", VInt 30);
     ("count", VInt 60); ("dailyDose", VInt 2);
     ("productShape", VStr "Capsules/Tablets"); ("packingMaterial", VStr "Plastic");
     ("bottleSize", VStr "Normal"); ("isMaleSupport", VStr "No");
     ("importFrom", VStr "US")]%string.

Definition device_scenario : gmap string pyval :=
  list_to_map
    [("purchasePrice", VInt 100); ("fxRate", VInt 50); ("lengthCm", VInt 20);
     ("widthCm", VInt 20); ("heightCm", VInt 20); ("weightKg", VInt 5);
     ("isMaleSupport", VStr "No"); ("importFrom", VStr "US")]%string.

(** A device with the given price, an exchange rate of 1, and no volume or
    weight. *)
Definition flat_device (purchasePrice : pyval) : gmap string pyval :=
  list_to_map
    [("purchasePrice", purchasePrice); ("fxRate", VInt 1); ("lengthCm", VInt 0);
     ("widthCm", VInt 0); ("heightCm", VInt 0); ("weightKg", VInt 0)]%string.

(** A supplement with the given price and daily dose, an exchange rate of 1,
    no weight and thirty units. *)
Definition plain_supplement (purchasePrice dailyDose : pyval) : gmap string pyval :=
  list_to_map
    [("purchasePrice", purchasePrice); ("fxRate", VInt 1); ("weightGrams", VInt 0);
     ("count", VInt 30); ("dailyDose", dailyDose)]%string.

(** ** Categorical attributes *)

(** The categorical fields of a request and the table each one indexes. *)
Definition categorical_fields : list (string * attribute) :=
  [("productShape", productShape); ("packingMaterial", packingMaterial);
   ("bottleSize", bottleSize); ("isMaleSupport", maleSupport);
   ("importFrom", importOrigin)]%string.

Definition hashable (v : pyval) : bool :=
  match v with
  | VList _ | VDict _ => false
  | _ => true
  end.

(** [v] is one of the keys of the table of [a]. *)
Definition in_table (a : attribute) (v : pyval) : bool :=
  match v with
  | VStr s => match assoc s (MULTIPLIERS a) with Some _ => true | None => false end
  | _ => false
  end.

(** ** Exact values *)

(** The rational number a finite double stands for (and 0 for the others). *)
Definition F2Q (x : spec_float) : Q :=
  match x with
  | S754_finite s m e => (inject_Z (if s then Zneg m else Zpos m) * 2 ^ e)%Q
  | _ => 0%Q
  end.

(** ** Rounding, and what is known of a validated input *)

(** Position of the fraction [N / D] with respect to the integer [shr_m]
    and to the middle of the unit interval that starts there. *)
Definition rec_ok (mrs : shr_record) (N D : Z) : Prop :=
  let r := N - shr_m mrs * D in
  0 <= shr_m mrs /\ 0 < D /\ 0 <= r < D /\
  match shr_r mrs, shr_s mrs with
  | false, false => r = 0
  | false, true => 0 < r /\ 2 * r < D
  | true, false => 2 * r = D
  | true, true => D < 2 * r
  end.

(** The result of [binary_round_aux] on a mantissa [m2] that is already
    rounded, at the exponent [E] of the format. *)
Definition pack (s : bool) (m2 E : Z) : spec_float :=
  if m2 =? 0 then S754_zero s
  else if m2 =? 2 ^ 53 then
    (if E + 1 <=? 971 then S754_finite s (Z.to_pos (2 ^ 52)) (E + 1) else S754_infinity s)
  else if E <=? 971 then S754_finite s (Z.to_pos m2) E
  else S754_infinity s.

(** [r] is the double that rounding to nearest gives for the magnitude
    [v], with sign [s]: [v] is [x] units of [2 ^ E], where [E] is the
    exponent of the format at the magnitude of [v], and the mantissa [m2] is
    an integer nearest to [x]. *)
Definition Rnd (s : bool) (v : Q) (r : spec_float) : Prop :=
  exists (m2 E : Z) (x : Q),
    (v == x * 2 ^ E)%Q /\ -1074 <= E /\
    (0 <= x < 9007199254740992)%Q /\
    (-1074 < E -> (4503599627370496 <= x)%Q) /\
    (x - (1 # 2) <= inject_Z m2 <= x + (1 # 2))%Q /\
    r = pack s m2 E.

(** Magnitude of a double. *)
Definition Fmag (x : spec_float) : Q :=
  match x with
  | S754_finite _ m e => (inject_Z (Zpos m) * 2 ^ e)%Q
  | _ => 0%Q
  end.

Definition is_inf (x : spec_float) : bool :=
  match x with S754_infinity _ => true | _ => false end.

Definition sign_of (x : spec_float) : bool :=
  match x with
  | S754_zero s | S754_infinity s | S754_finite s _ _ => s
  | S754_nan => false
  end.

(** A rational number that a double with at most 53 bits can stand for. *)
Definition representable (c : Q) : Prop :=
  exists mc ec : Z, (c == inject_Z mc * 2 ^ ec)%Q /\ 0 <= mc < 2 ^ 53 /\ -1074 <= ec.

Definition nonneg (x : spec_float) : bool :=
  match x with
  | S754_finite true _ _ | S754_infinity true => false
  | _ => true
  end.

(** A binary64 value that is not negative (NaN included). *)
Definition good (x : spec_float) : bool := F64.valid x && nonneg x.

(** [x] is a binary64 value, [+inf] or a finite number not below [c]. *)
Definition at_least (c : Q) (x : spec_float) : Prop :=
  F64.valid x = true /\
  match x with
  | S754_infinity false => True
  | S754_finite false _ _ => (c <= F2Q x)%Q
  | _ => False
  end.

(** [x] is a finite number between 0 and 3. *)
Definition at_most_3 (x : spec_float) : Prop :=
  good x = true /\
  match x with
  | S754_zero _ => True
  | S754_finite false _ _ => (F2Q x <= 3)%Q
  | _ => False
  end.

(** ** From the cost to the breakdown *)

Definition nan_error : exn := ValueError "cannot convert float NaN to integer".

Definition inf_error : exn := OverflowError "cannot convert float infinity to integer".

Definition int_error : exn := OverflowError "int too large to convert to float".

Definition zero_error : exn := ZeroDivisionError "float division by zero".

(** The floats of a decoded JSON document are binary64 values. *)
Definition wf_val (v : pyval) : bool :=
  match v with
  | VFloat f => F64.valid f
  | _ => true
  end.

Definition wf_inputs (inputs : gmap string pyval) : bool :=
  forallb (fun kv => wf_val (snd kv)) (map_to_list inputs).

(** No categorical field holds a list or a dictionary. *)
Definition hashable_inputs (inputs : gmap string pyval) : bool :=
  forallb (fun ka => hashable (dict_get inputs (fst ka))) categorical_fields.

(** The value of the local variable [total_cost] of
    [calculate_supplement_price] when line 225 has run. *)
Definition supplement_total_cost_of (inputs : gmap string pyval) : result spec_float :=
  let* purchasePrice := py_float (dict_get_default inputs "purchasePrice" (VInt 0)) in
  let* fxRate := py_float (dict_get_default inputs "fxRate" (VInt 50)) in
  let* weightGrams := py_float (dict_get_default inputs "weightGrams" (VInt 0)) in
  let* count := py_float (dict_get_default inputs "count" (VInt 0)) in
  let* dailyDose := py_float (dict_get_default inputs "dailyDose" (VInt 1)) in
  let* shapeMult :=
    table_get (MULTIPLIERS productShape) (dict_get inputs "productShape") (int 1) in
  let* packMult :=
    table_get (MULTIPLIERS packingMaterial) (dict_get inputs "packingMaterial") (int 1) in
  let* sizeMult :=
    table_get (MULTIPLIERS bottleSize) (dict_get inputs "bottleSize") (int 1) in
  let* maleMult :=
    table_get (MULTIPLIERS maleSupport) (dict_get inputs "isMaleSupport") (int 1) in
  let* originMult :=
    table_get (MULTIPLIERS importOrigin) (dict_get inputs "importFrom") (int 1) in
  let xfactor := (shapeMult * packMult * sizeMult * maleMult * originMult)%f64 in
  supplement_total_cost purchasePrice fxRate weightGrams count dailyDose xfactor.

(** The breakdowns of the two scenarios of the specification. *)
Definition supplement_scenario_result : breakdown :=
  {| baseCost := int 500; totalCost := int 1147; finalPrice := 1600;
     profit := int 453; margin := lit 283 (-1) |}.

Definition device_scenario_result : breakdown :=
  {| baseCost := int 5000; totalCost := int 65000; finalPrice := 74750;
     profit := int 9750; margin := lit 130 (-1) |}.

(** The value of the local variable [total_cost] of
    [calculate_device_price] when line 269 has run. *)
Definition device_total_cost_of (inputs : gmap string pyval) : result spec_float :=
  let* purchasePrice := py_float (dict_get_default inputs "purchasePrice" (VInt 0)) in
  let* fxRate := py_float (dict_get_default inputs "fxRate" (VInt 50)) in
  let* l := py_float (dict_get_default inputs "lengthCm" (VInt 0)) in
  let* w := py_float (dict_get_default inputs "widthCm" (VInt 0)) in
  let* h := py_float (dict_get_default inputs "heightCm" (VInt 0)) in
  let* weight := py_float (dict_get_default inputs "weightKg" (VInt 0)) in
  let* maleMult :=
    table_get (MULTIPLIERS maleSupport) (dict_get inputs "isMaleSupport") (int 1) in
  let* originMult :=
    table_get (MULTIPLIERS importOrigin) (dict_get inputs "importFrom") (int 1) in
  device_total_cost purchasePrice fxRate l w h weight maleMult originMult.

(** The ways a formula can fail at the pricing step: [math.ceil] on a cost
    that is NaN or infinite, and the conversion of a price that is too
    large for a float. *)
Definition pricing_error (e : exn) : Prop :=
  e = nan_error \/ e = inf_error \/ e = int_error.

(** The cost is finite, not negative and at most [2 ^ 1000]. *)
Definition in_range (raw : spec_float) : Prop :=
  F64.is_finite raw = true /\ nonneg raw = true /\ (F2Q raw <= 2 ^ 1000)%Q.

(** What holds of the price of a returned breakdown, for a cost
    [total_cost] and the cost times the margin [raw], both as computed. *)
Definition price_properties (total_cost raw : spec_float) (b : breakdown) : Prop :=
  round_up_to_50 raw = Ok (finalPrice b) /\
  finalPrice b mod 50 = 0 /\
  totalCost b = py_round total_cost 0 /\
  (F2Q (totalCost b) <= inject_Z (finalPrice b))%Q /\
  ((F2Q raw < 2 ^ 53)%Q ->
   (inject_Z (finalPrice b) - 50 < F2Q raw <= inject_Z (finalPrice b))%Q).

(** * Proofs *)

Lemma digits2_pos_size (p : positive) : digits2_pos p = Pos.size p.
Proof. induction p; simpl; congruence. Qed.

Lemma Zdigits2_bounds (m : Z) :
  0 < m -> 2 ^ (Zdigits2 m - 1) <= m < 2 ^ Zdigits2 m.
Proof.
  destruct m as [| p | p]; try lia. intros _. simpl.
  rewrite digits2_pos_size.
  pose proof (Pos.size_gt p) as Hgt. pose proof (Pos.size_le p) as Hle.
  apply Pos2Z.pos_lt_pos in Hgt. apply Pos2Z.pos_le_pos in Hle.
  rewrite Pos2Z.inj_pow in Hgt, Hle.
  replace (Z.pos (Pos.size p)) with (Z.succ (Z.pos (Pos.size p) - 1)) in Hle by lia.
  rewrite Z.pow_succ_r in Hle by lia.
  change (Z.pos p~0) with (2 * Z.pos p) in Hle. lia.
Qed.

Lemma Zdigits2_nonneg (m : Z) : 0 <= Zdigits2 m.
Proof. destruct m; simpl; lia. Qed.

Lemma shr_1_ok (mrs : shr_record) (N D : Z) :
  rec_ok mrs N D -> rec_ok (shr_1 mrs) N (2 * D).
Proof.
  destruct mrs as [m r s]. unfold rec_ok. simpl.
  intros (Hm & HD & Hr & Hloc).
  destruct m as [| [p | p |] | p]; try lia;
    destruct r, s; simpl in *; repeat split; try lia.
Qed.

Lemma iter_pos_ok (mrs : shr_record) (N : Z) (p : positive) :
  forall D mrs, rec_ok mrs N D -> rec_ok (SpecFloat.iter_pos shr_1 p mrs) N (2 ^ Zpos p * D).
Proof.
  induction p as [p IH | p IH |]; intros D mrs0 H; simpl SpecFloat.iter_pos.
  - replace (2 ^ Z.pos p~1 * D) with (2 ^ Z.pos p * (2 ^ Z.pos p * (2 * D))).
    + apply IH, IH, shr_1_ok, H.
    + replace (Z.pos p~1) with (Z.pos p + Z.pos p + 1) by lia.
      rewrite !Z.pow_add_r by lia. change (2 ^ 1) with 2. ring.
  - replace (2 ^ Z.pos p~0 * D) with (2 ^ Z.pos p * (2 ^ Z.pos p * D)).
    + apply IH, IH, H.
    + replace (Z.pos p~0) with (Z.pos p + Z.pos p) by lia.
      rewrite !Z.pow_add_r by lia. ring.
  - change (2 ^ 1 * D) with (2 * D). apply shr_1_ok, H.
Qed.

(** After [shr]: the exponent and the scale of the fraction. *)
Lemma shr_ok (mrs : shr_record) (e n N D : Z) :
  rec_ok mrs N D ->
  rec_ok (fst (shr mrs e n)) N (2 ^ Z.max n 0 * D) /\
  snd (shr mrs e n) = e + Z.max n 0.
Proof.
  intros H. destruct n as [| p | p]; simpl.
  - split; [| lia]. replace (1 * D) with D by ring.
    destruct D; exact H.
  - split; [| lia]. apply (iter_pos_ok mrs), H.
  - split; [| lia]. destruct D; exact H.
Qed.

Lemma rec_ok_of_loc_Exact (m : Z) : 0 <= m -> rec_ok (shr_record_of_loc m loc_Exact) m 1.
Proof. intros H. unfold rec_ok. simpl. lia. Qed.

Lemma rec_ok_m (mrs : shr_record) (N D : Z) : rec_ok mrs N D -> shr_m mrs = N / D.
Proof.
  intros (Hm & HD & Hr & _). apply Z.div_unique with (N - shr_m mrs * D); lia.
Qed.

Lemma fexp_eq (x : Z) : fexp 53 1024 x = Z.max (x - 53) (-1074).
Proof. reflexivity. Qed.

Lemma pow2_pos (k : Z) : 0 <= k -> 0 < 2 ^ k.
Proof. intros H. apply Z.pow_pos_nonneg; lia. Qed.

Lemma Zdigits2_lt_pow (m k : Z) : 0 < m -> m < 2 ^ k -> Zdigits2 m <= k.
Proof.
  intros Hm Hlt. destruct (Zdigits2_bounds m Hm) as [Hlo _].
  destruct (Z_le_gt_dec (Zdigits2 m) k) as [H | H]; [exact H | exfalso].
  assert (2 ^ k <= 2 ^ (Zdigits2 m - 1)).
  { apply Z.pow_le_mono_r; lia. }
  lia.
Qed.

Lemma Zdigits2_ge_pow (m k : Z) : 0 <= k -> 2 ^ k <= m -> k + 1 <= Zdigits2 m.
Proof.
  intros Hk Hle.
  assert (Hm : 0 < m) by (pose proof (pow2_pos k Hk); lia).
  destruct (Zdigits2_bounds m Hm) as [_ Hhi].
  destruct (Z_le_gt_dec (k + 1) (Zdigits2 m)) as [H | H]; [exact H | exfalso].
  assert (2 ^ Zdigits2 m <= 2 ^ k).
  { apply Z.pow_le_mono_r; lia. }
  lia.
Qed.

(** What [round_nearest_even] chooses. *)
Lemma round_nearest_even_ok (mrs : shr_record) (N D : Z) :
  rec_ok mrs N D ->
  let m2 := round_nearest_even (shr_m mrs) (loc_of_shr_record mrs) in
  shr_m mrs <= m2 <= shr_m mrs + 1 /\ 2 * Z.abs (m2 * D - N) <= D.
Proof.
  destruct mrs as [m r s]. unfold rec_ok. simpl.
  intros (Hm & HD & Hr & Hloc).
  destruct r, s; simpl; try destruct (Z.even m); lia.
Qed.

Lemma second_shift (s : bool) (m2 E : Z) :
  -1074 <= E -> 0 <= m2 <= 2 ^ 53 -> (-1074 < E -> 2 ^ 52 <= m2) ->
  (let '(mrs'', e'') := shr_fexp 53 1024 m2 E loc_Exact in
   match shr_m mrs'' with
   | Z0 => S754_zero s
   | Zpos m => if e'' <=? 1024 - 53 then S754_finite s m e'' else S754_infinity s
   | Zneg _ => S754_nan
   end) = pack s m2 E.
Proof.
  intros HE Hm2 Hnorm. unfold pack, shr_fexp.
  destruct (Z.eqb_spec m2 0) as [-> | Hne].
  - simpl Zdigits2. rewrite fexp_eq.
    replace (Z.max (0 + E - 53) (-1074) - E) with (- (E + 1074)) by lia.
    destruct (E + 1074) eqn:HE'; try lia; reflexivity.
  - destruct (Z.eqb_spec m2 (2 ^ 53)) as [-> | Hne'].
    + change (Zdigits2 (2 ^ 53)) with 54. rewrite fexp_eq.
      replace (Z.max (54 + E - 53) (-1074) - E) with 1 by lia.
      simpl. reflexivity.
    + assert (Hd : fexp 53 1024 (Zdigits2 m2 + E) = E).
      { rewrite fexp_eq.
        assert (Zdigits2 m2 <= 53) by (apply Zdigits2_lt_pow; lia).
        destruct (Z.eq_dec E (-1074)) as [-> | HE'']; [lia |].
        assert (53 <= Zdigits2 m2) by (apply (Zdigits2_ge_pow m2 52); lia).
        lia. }
      rewrite Hd, Z.sub_diag. simpl.
      destruct m2 as [| p | p]; try lia. reflexivity.
Qed.

Lemma binary_round_aux_spec (s : bool) (m e : Z) (l : location) (N D : Z) :
  rec_ok (shr_record_of_loc m l) N D ->
  let E := fexp 53 1024 (Zdigits2 m + e) in
  e <= E ->
  exists m2 : Z,
    0 <= m2 <= 2 ^ 53 /\
    (-1074 < E -> 2 ^ 52 <= m2) /\
    2 * Z.abs (m2 * (2 ^ (E - e) * D) - N) <= 2 ^ (E - e) * D /\
    (-1074 < E -> 2 ^ 52 * (2 ^ (E - e) * D) <= N) /\
    0 <= N < 2 ^ 53 * (2 ^ (E - e) * D) /\
    binary_round_aux 53 1024 s m e l = pack s m2 E.
Proof.
  intros Hrec E HeE.
  assert (Hm : shr_m (shr_record_of_loc m l) = m) by (destruct l as [| []]; reflexivity).
  pose proof (rec_ok_m _ _ _ Hrec) as HmN. rewrite Hm in HmN.
  assert (Hm0 : 0 <= m) by (destruct Hrec as [H _]; rewrite Hm in H; exact H).
  assert (HD : 0 < D) by (destruct Hrec as (_ & H & _); exact H).
  assert (HE : -1074 <= E) by (unfold E; rewrite fexp_eq; lia).
  set (k := E - e). assert (Hk : 0 <= k) by (unfold k; lia).
  pose proof (pow2_pos k Hk) as HP.
  destruct (shr_ok _ e k N D Hrec) as [Hrec1 He1].
  rewrite Z.max_l in Hrec1, He1 by lia.
  set (mrs1 := fst (shr (shr_record_of_loc m l) e k)) in *.
  pose proof (rec_ok_m _ _ _ Hrec1) as Hm1.
  destruct (round_nearest_even_ok _ _ _ Hrec1) as [Hm2 Hnear].
  set (m2 := round_nearest_even (shr_m mrs1) (loc_of_shr_record mrs1)) in *.
  assert (Hm1' : shr_m mrs1 = m / 2 ^ k).
  { rewrite Hm1, HmN. rewrite (Z.mul_comm (2 ^ k) D).
    symmetry. apply Z.div_div; lia. }
  assert (Hm1lo : 0 <= shr_m mrs1) by (destruct Hrec1 as [H _]; exact H).
  assert (Hbounds : shr_m mrs1 < 2 ^ 53 /\ (-1074 < E -> 2 ^ 52 <= shr_m mrs1)).
  { destruct (Z.eq_dec m 0) as [-> | Hmne].
    - rewrite Hm1'. rewrite Z.div_0_l by lia. split; [lia |].
      unfold E. simpl Zdigits2. rewrite fexp_eq. unfold E in HeE.
      simpl Zdigits2 in HeE. rewrite fexp_eq in HeE. lia.
    - assert (Hmpos : 0 < m) by lia.
      destruct (Zdigits2_bounds m Hmpos) as [Hlo Hhi].
      pose proof (Zdigits2_nonneg m) as Hdn.
      split.
      + rewrite Hm1'. apply Z.div_lt_upper_bound; [lia |].
        rewrite <- Z.pow_add_r by lia.
        eapply Z.lt_le_trans; [exact Hhi |].
        apply Z.pow_le_mono_r; [lia |]. unfold k, E. rewrite fexp_eq. lia.
      + intros Hnorm. rewrite Hm1'. apply Z.div_le_lower_bound; [lia |].
        rewrite <- Z.pow_add_r by lia.
        eapply Z.le_trans; [| exact Hlo].
        apply Z.pow_le_mono_r; [lia |]. unfold k, E in *. rewrite fexp_eq in *. lia. }
  exists m2. split; [lia |]. split; [lia |]. split; [exact Hnear |].
  fold k. destruct Hrec1 as (_ & HD' & Hr1 & _).
  split; [nia |]. split; [nia |].
  unfold binary_round_aux.
  assert (Hshr : shr_fexp 53 1024 m e l = (mrs1, E)).
  { unfold shr_fexp. fold E. fold k.
    rewrite (surjective_pairing (shr (shr_record_of_loc m l) e k)).
    fold mrs1. rewrite He1. f_equal. unfold k. lia. }
  rewrite Hshr. fold m2.
  apply second_shift; lia.
Qed.

(** ** Powers of two in Q *)

Lemma Qpow2_pos (e : Z) : (0 < 2 ^ e)%Q.
Proof. apply Qpower_0_lt. reflexivity. Qed.

Lemma Qpow2_add (a b : Z) : (2 ^ (a + b) == 2 ^ a * 2 ^ b)%Q.
Proof. apply Qpower_plus. discriminate. Qed.

Lemma Qpow2_le (a b : Z) : a <= b -> (2 ^ a <= 2 ^ b)%Q.
Proof. intros H. apply Qpower_le_compat_l; [exact H | discriminate]. Qed.

Lemma Qpow2_inject (k : Z) : 0 <= k -> (inject_Z (2 ^ k) == 2 ^ k)%Q.
Proof. intros H. apply (Zpower_Qpower 2 k H). Qed.

Lemma inject_Z_pos (z : Z) : 0 < z -> (0 < inject_Z z)%Q.
Proof. intros H. rewrite Zlt_Qlt in H. exact H. Qed.

Lemma inject_Z_nonneg (z : Z) : 0 <= z -> (0 <= inject_Z z)%Q.
Proof. intros H. rewrite Zle_Qle in H. exact H. Qed.

Lemma inject_Z_sub (a b : Z) : (inject_Z (a - b) == inject_Z a - inject_Z b)%Q.
Proof. unfold Z.sub. rewrite inject_Z_plus, inject_Z_opp. reflexivity. Qed.

Lemma binary_round_aux_Rnd (s : bool) (m e : Z) (l : location) (N D : Z) :
  rec_ok (shr_record_of_loc m l) N D ->
  e <= fexp 53 1024 (Zdigits2 m + e) ->
  Rnd s (inject_Z N / inject_Z D * 2 ^ e) (binary_round_aux 53 1024 s m e l).
Proof.
  intros Hrec HeE.
  assert (HD : 0 < D) by (destruct Hrec as (_ & H & _); exact H).
  destruct (binary_round_aux_spec s m e l N D Hrec HeE)
    as (m2 & Hm2 & Hnorm & Hnear & Hlo & Hhi & Heq).
  set (E := fexp 53 1024 (Zdigits2 m + e)) in *.
  set (k := E - e) in *. assert (Hk : 0 <= k) by (unfold k; lia).
  pose proof (pow2_pos k Hk) as HP.
  set (D' := 2 ^ k * D) in *. assert (HD' : 0 < D') by (unfold D'; nia).
  exists m2, E, (inject_Z N / inject_Z D')%Q.
  assert (HDq : (0 < inject_Z D)%Q) by (apply inject_Z_pos; exact HD).
  assert (HD'q : (0 < inject_Z D')%Q) by (apply inject_Z_pos; exact HD').
  assert (HEk : (2 ^ E == 2 ^ k * 2 ^ e)%Q).
  { rewrite <- Qpow2_add. unfold k. replace (E - e + e) with E by lia. reflexivity. }
  assert (HD'eq : (inject_Z D' == 2 ^ k * inject_Z D)%Q).
  { unfold D'. rewrite inject_Z_mult, Qpow2_inject by lia. reflexivity. }
  pose proof (Qpow2_pos k) as Hkq. pose proof (Qpow2_pos e) as Heq'.
  set (x := (inject_Z N / inject_Z D')%Q).
  assert (Hx : (x * inject_Z D' == inject_Z N)%Q).
  { unfold x. field. lra. }
  split.
  { rewrite HEk. unfold x. rewrite HD'eq. field. split; lra. }
  split; [unfold E; rewrite fexp_eq; lia |].
  assert (HhiQ : (inject_Z N < 9007199254740992 * inject_Z D')%Q).
  { change 9007199254740992%Q with (inject_Z (2 ^ 53)).
    rewrite <- inject_Z_mult, <- Zlt_Qlt. lia. }
  assert (HloQ : (0 <= inject_Z N)%Q) by (apply inject_Z_nonneg; lia).
  split; [split; nra |].
  split.
  { intros HE. specialize (Hlo HE).
    assert (4503599627370496 * inject_Z D' <= inject_Z N)%Q.
    { change 4503599627370496%Q with (inject_Z (2 ^ 52)).
      rewrite <- inject_Z_mult, <- Zle_Qle. exact Hlo. }
    nra. }
  split; [| exact Heq].
  assert (H1 : (2 * (inject_Z m2 * inject_Z D' - inject_Z N) <= inject_Z D')%Q).
  { rewrite <- inject_Z_mult.
    rewrite <- inject_Z_sub.
    change 2%Q with (inject_Z 2). rewrite <- inject_Z_mult, <- Zle_Qle. lia. }
  assert (H2 : (2 * (inject_Z N - inject_Z m2 * inject_Z D') <= inject_Z D')%Q).
  { rewrite <- inject_Z_mult.
    rewrite <- inject_Z_sub.
    change 2%Q with (inject_Z 2). rewrite <- inject_Z_mult, <- Zle_Qle. lia. }
  split; nra.
Qed.

Lemma Zdigits2_unique (m k : Z) : 2 ^ (k - 1) <= m < 2 ^ k -> 1 <= k -> Zdigits2 m = k.
Proof.
  intros [Hlo Hhi] Hk.
  assert (0 < m) by (pose proof (pow2_pos (k - 1)); lia).
  pose proof (Zdigits2_lt_pow m k). pose proof (Zdigits2_ge_pow m (k - 1)). lia.
Qed.

Lemma canonical_53 (m : positive) (e : Z) :
  -1074 <= e -> Z.pos m < 2 ^ 53 -> (-1074 < e -> 2 ^ 52 <= Z.pos m) ->
  canonical_mantissa 53 1024 m e = true.
Proof.
  intros He Hhi Hlo. unfold canonical_mantissa. apply Z.eqb_eq.
  rewrite fexp_eq. change (Z.pos (digits2_pos m)) with (Zdigits2 (Z.pos m)).
  assert (Zdigits2 (Z.pos m) <= 53) by (apply Zdigits2_lt_pow; lia).
  destruct (Z.eq_dec e (-1074)); [lia |].
  assert (53 <= Zdigits2 (Z.pos m)) by (apply (Zdigits2_ge_pow _ 52); lia).
  lia.
Qed.

Lemma pack_valid (s : bool) (m2 E : Z) :
  -1074 <= E -> 0 <= m2 <= 2 ^ 53 -> (-1074 < E -> 2 ^ 52 <= m2) ->
  F64.valid (pack s m2 E) = true.
Proof.
  intros HE Hm2 Hnorm. unfold pack.
  destruct (Z.eqb_spec m2 0); [reflexivity |].
  destruct (Z.eqb_spec m2 (2 ^ 53)).
  - destruct (Z.leb_spec (E + 1) 971); [| reflexivity].
    change (Z.to_pos (2 ^ 52)) with 4503599627370496%positive.
    unfold F64.valid, valid_binary, bounded. apply andb_true_iff. split.
    + apply canonical_53; lia.
    + apply Z.leb_le. unfold F64.emax, F64.prec. lia.
  - destruct (Z.leb_spec E 971); [| reflexivity].
    unfold F64.valid, valid_binary, bounded. apply andb_true_iff. split.
    + apply canonical_53; rewrite ?Z2Pos.id; lia.
    + apply Z.leb_le. unfold F64.emax, F64.prec. lia.
Qed.

Lemma pack_sign (s : bool) (m2 E : Z) : sign_of (pack s m2 E) = s.
Proof.
  unfold pack. repeat match goal with |- context [if ?b then _ else _] => destruct b end;
    reflexivity.
Qed.

Lemma pack_not_nan (s : bool) (m2 E : Z) : F64.is_nan (pack s m2 E) = false.
Proof.
  unfold pack. repeat match goal with |- context [if ?b then _ else _] => destruct b end;
    reflexivity.
Qed.

(** The value of a packed mantissa, unless it overflows. *)
Lemma pack_value (s : bool) (m2 E : Z) :
  0 <= m2 ->
  is_inf (pack s m2 E) = false ->
  (Fmag (pack s m2 E) == inject_Z m2 * 2 ^ E)%Q.
Proof.
  intros Hm2. unfold pack.
  destruct (Z.eqb_spec m2 0) as [-> | Hne]; [intros _; simpl; ring |].
  destruct (Z.eqb_spec m2 (2 ^ 53)) as [-> | Hne'].
  - destruct (Z.leb_spec (E + 1) 971); [| discriminate]. intros _.
    unfold Fmag. rewrite Qpow2_add.
    assert (H53 : (inject_Z (2 ^ 53) == inject_Z (Z.pos (Z.to_pos (2 ^ 52))) * 2 ^ 1)%Q)
      by reflexivity.
    rewrite H53.
    generalize (2 ^ E)%Q (2 ^ 1)%Q (inject_Z (Z.pos (Z.to_pos (2 ^ 52)))).
    intros a b c. ring.
  - destruct (Z.leb_spec E 971); [| discriminate]. intros _.
    simpl Fmag. rewrite Z2Pos.id by lia. reflexivity.
Qed.

Lemma pack_zero_iff (s : bool) (m2 E : Z) :
  0 <= m2 -> (F64.is_zero (pack s m2 E) = true <-> m2 = 0).
Proof.
  intros Hm2. unfold pack.
  destruct (Z.eqb_spec m2 0) as [-> | Hne]; [simpl; tauto |].
  repeat match goal with |- context [if ?b then _ else _] => destruct b end;
    simpl; split; intros; try discriminate; lia.
Qed.

Lemma pack_inf (s : bool) (m2 E : Z) :
  0 <= m2 <= 2 ^ 53 -> (-1074 < E -> 2 ^ 52 <= m2) ->
  is_inf (pack s m2 E) = true ->
  (2 ^ 1024 <= inject_Z m2 * 2 ^ E)%Q.
Proof.
  intros Hm2 Hnorm. unfold pack.
  destruct (Z.eqb_spec m2 0) as [-> | Hne]; [discriminate |].
  destruct (Z.eqb_spec m2 (2 ^ 53)) as [-> | Hne'].
  - destruct (Z.leb_spec (E + 1) 971); [discriminate |]. intros _.
    assert (H971 : (2 ^ 971 <= 2 ^ E)%Q) by (apply Qpow2_le; lia).
    replace 1024 with (53 + 971) by lia. rewrite Qpow2_add.
    change (inject_Z (2 ^ 53)) with (2 ^ 53)%Q.
    apply Qmult_le_l; [apply Qpow2_pos | exact H971].
  - destruct (Z.leb_spec E 971); [discriminate |]. intros _.
    assert (H972 : (2 ^ 972 <= 2 ^ E)%Q) by (apply Qpow2_le; lia).
    assert (Hm : (2 ^ 52 <= inject_Z m2)%Q).
    { change (2 ^ 52)%Q with (inject_Z (2 ^ 52)). rewrite <- Zle_Qle. apply Hnorm. lia. }
    replace 1024 with (52 + 972) by lia. rewrite Qpow2_add.
    pose proof (Qpow2_pos 972). pose proof (Qpow2_pos E).
    assert (0 < 2 ^ 52)%Q by reflexivity.
    nra.
Qed.

(** ** Consequences of [Rnd] *)

Lemma Rnd_m2 (x : Q) (m2 E : Z) :
  (0 <= x < 9007199254740992)%Q ->
  (-1074 < E -> (4503599627370496 <= x)%Q) ->
  (x - (1 # 2) <= inject_Z m2 <= x + (1 # 2))%Q ->
  0 <= m2 <= 2 ^ 53 /\ (-1074 < E -> 2 ^ 52 <= m2).
Proof.
  intros Hx Hnorm Hm2.
  assert (H0 : (-1 < inject_Z m2)%Q) by lra.
  change (-1)%Q with (inject_Z (-1)) in H0.
  rewrite <- Zlt_Qlt in H0.
  assert (H1 : (inject_Z m2 < 9007199254740993)%Q) by lra.
  change 9007199254740993%Q with (inject_Z (2 ^ 53 + 1)) in H1.
  rewrite <- Zlt_Qlt in H1.
  split; [lia |]. intros HE. specialize (Hnorm HE).
  assert (H2 : (4503599627370495 < inject_Z m2)%Q) by lra.
  change 4503599627370495%Q with (inject_Z (2 ^ 52 - 1)) in H2.
  rewrite <- Zlt_Qlt in H2. lia.
Qed.

Lemma Rnd_valid (s : bool) (v : Q) (r : spec_float) : Rnd s v r -> F64.valid r = true.
Proof.
  intros (m2 & E & x & Hv & HE & Hx & Hnorm & Hm2 & ->).
  destruct (Rnd_m2 x m2 E Hx Hnorm Hm2). apply pack_valid; assumption.
Qed.

Lemma Rnd_sign (s : bool) (v : Q) (r : spec_float) : Rnd s v r -> sign_of r = s.
Proof. intros (m2 & E & x & _ & _ & _ & _ & _ & ->). apply pack_sign. Qed.

Lemma Rnd_not_nan (s : bool) (v : Q) (r : spec_float) : Rnd s v r -> F64.is_nan r = false.
Proof. intros (m2 & E & x & _ & _ & _ & _ & _ & ->). apply pack_not_nan. Qed.

(** Rounding never goes below a representable number that the exact value
    reaches. *)
Lemma Rnd_lower (s : bool) (v c : Q) (r : spec_float) :
  Rnd s v r -> representable c -> (c <= v)%Q ->
  is_inf r = true \/ (c <= Fmag r)%Q.
Proof.
  intros (m2 & E & x & Hv & HE & Hx & Hnorm & Hm2 & ->) (mc & ec & Hc & Hmc & Hec) Hcv.
  destruct (Rnd_m2 x m2 E Hx Hnorm Hm2) as [Hm2z Hnormz].
  destruct (is_inf (pack s m2 E)) eqn:Hinf; [left; reflexivity | right].
  rewrite (pack_value s m2 E) by (lia || assumption).
  pose proof (Qpow2_pos E) as HEpos.
  destruct (Z_le_gt_dec E ec) as [Hle | Hgt].
  - (* [c] is a multiple of [2 ^ E] *)
    set (cz := mc * 2 ^ (ec - E)).
    assert (Hcz : (c == inject_Z cz * 2 ^ E)%Q).
    { rewrite Hc. unfold cz. rewrite inject_Z_mult, Qpow2_inject by lia.
      rewrite <- Qmult_assoc, <- Qpow2_add. replace (ec - E + E) with ec by lia.
      reflexivity. }
    assert (Hczx : (inject_Z cz <= x)%Q).
    { apply (Qmult_le_r _ _ (2 ^ E)); [exact HEpos |]. rewrite <- Hcz, <- Hv. exact Hcv. }
    assert (Hlt : (inject_Z cz < inject_Z (m2 + 1))%Q).
    { rewrite inject_Z_plus. change (inject_Z 1) with 1%Q. lra. }
    rewrite <- Zlt_Qlt in Hlt.
    assert (Hle' : (inject_Z cz <= inject_Z m2)%Q) by (rewrite <- Zle_Qle; lia).
    rewrite Hcz. apply Qmult_le_r; assumption.
  - (* [c] lies below the binade of [v] *)
    assert (Hm2q : (2 ^ 52 <= inject_Z m2)%Q).
    { change (2 ^ 52)%Q with (inject_Z (2 ^ 52)). rewrite <- Zle_Qle. apply Hnormz. lia. }
    assert (Hmcq : (inject_Z mc <= 2 ^ 53)%Q).
    { change (2 ^ 53)%Q with (inject_Z (2 ^ 53)). rewrite <- Zle_Qle. lia. }
    assert (Hpow : (2 ^ 53 * 2 ^ ec <= 2 ^ 52 * 2 ^ E)%Q).
    { rewrite <- !Qpow2_add. apply Qpow2_le. lia. }
    pose proof (Qpow2_pos ec) as Hecpos.
    rewrite Hc.
    apply Qle_trans with (2 ^ 53 * 2 ^ ec)%Q.
    + apply Qmult_le_r; assumption.
    + apply Qle_trans with (2 ^ 52 * 2 ^ E)%Q; [exact Hpow |].
      apply Qmult_le_r; assumption.
Qed.

(** Rounding never goes above a representable number that bounds the exact
    value, and does not overflow below [2 ^ 1024]. *)
Lemma Rnd_upper (s : bool) (v c : Q) (r : spec_float) :
  Rnd s v r -> representable c -> (v <= c)%Q -> (c < 2 ^ 1024)%Q ->
  is_inf r = false /\ (Fmag r <= c)%Q.
Proof.
  intros (m2 & E & x & Hv & HE & Hx & Hnorm & Hm2 & ->) (mc & ec & Hc & Hmc & Hec) Hvc Hmax.
  destruct (Rnd_m2 x m2 E Hx Hnorm Hm2) as [Hm2z Hnormz].
  pose proof (Qpow2_pos E) as HEpos.
  assert (Hval : (inject_Z m2 * 2 ^ E <= c)%Q).
  { destruct (Z_le_gt_dec E ec) as [Hle | Hgt].
    - set (cz := mc * 2 ^ (ec - E)).
      assert (Hcz : (c == inject_Z cz * 2 ^ E)%Q).
      { rewrite Hc. unfold cz. rewrite inject_Z_mult, Qpow2_inject by lia.
        rewrite <- Qmult_assoc, <- Qpow2_add. replace (ec - E + E) with ec by lia.
        reflexivity. }
      assert (Hczx : (x <= inject_Z cz)%Q).
      { apply (Qmult_le_r _ _ (2 ^ E)); [exact HEpos |]. rewrite <- Hcz, <- Hv. exact Hvc. }
      assert (Hlt : (inject_Z m2 < inject_Z (cz + 1))%Q).
      { rewrite inject_Z_plus. change (inject_Z 1) with 1%Q. lra. }
      rewrite <- Zlt_Qlt in Hlt.
      assert (Hle' : (inject_Z m2 <= inject_Z cz)%Q) by (rewrite <- Zle_Qle; lia).
      rewrite Hcz. apply Qmult_le_r; assumption.
    - exfalso.
      assert (Hx52 : (2 ^ 52 <= x)%Q) by (apply Hnorm; lia).
      assert (Hmcq : (inject_Z mc < 2 ^ 53)%Q).
      { change (2 ^ 53)%Q with (inject_Z (2 ^ 53)). rewrite <- Zlt_Qlt. lia. }
      assert (Hpow : (2 ^ 53 * 2 ^ ec <= 2 ^ 52 * 2 ^ E)%Q).
      { rewrite <- !Qpow2_add. apply Qpow2_le. lia. }
      pose proof (Qpow2_pos ec) as Hecpos.
      assert (Hc53 : (c < 2 ^ 53 * 2 ^ ec)%Q).
      { rewrite Hc. apply Qmult_lt_r; assumption. }
      assert (Hv52 : (2 ^ 52 * 2 ^ E <= v)%Q).
      { rewrite Hv. apply Qmult_le_r; assumption. }
      lra. }
  destruct (is_inf (pack s m2 E)) eqn:Hinf.
  - exfalso. pose proof (pack_inf s m2 E Hm2z Hnormz Hinf). lra.
  - split; [reflexivity |]. rewrite (pack_value s m2 E) by (lia || assumption). exact Hval.
Qed.

(** A representable value is its own rounding. *)
Lemma Rnd_exact (s : bool) (v : Q) (r : spec_float) :
  Rnd s v r -> representable v -> (v < 2 ^ 1024)%Q ->
  is_inf r = false /\ (Fmag r == v)%Q.
Proof.
  intros HR Hrep Hmax.
  destruct (Rnd_upper s v v r HR Hrep (Qle_refl v) Hmax) as [Hinf Hup].
  destruct (Rnd_lower s v v r HR Hrep (Qle_refl v)) as [H | Hlo]; [congruence |].
  split; [exact Hinf |]. apply Qle_antisym; assumption.
Qed.

Lemma Rnd_ext (s : bool) (v v' : Q) (r : spec_float) :
  (v == v')%Q -> Rnd s v r -> Rnd s v' r.
Proof.
  intros Heq (m2 & E & x & Hv & H). exists m2, E, x.
  split; [rewrite <- Heq; exact Hv | exact H].
Qed.

Lemma pos_iter_xO (m d : positive) : Z.pos (Pos.iter xO m d) = Z.pos m * 2 ^ Z.pos d.
Proof.
  induction d as [| d IH] using Pos.peano_ind.
  - simpl. lia.
  - rewrite Pos.iter_succ, Pos2Z.inj_succ, Z.pow_succ_r by lia.
    rewrite Pos2Z.inj_xO, IH. ring.
Qed.

Lemma shl_align_spec (mx : positive) (ex ex' : Z) :
  snd (shl_align mx ex ex') = Z.min ex ex' /\
  Z.pos (fst (shl_align mx ex ex')) = Z.pos mx * 2 ^ (ex - Z.min ex ex').
Proof.
  unfold shl_align. destruct (ex' - ex) as [| d | d] eqn:Hd; simpl.
  - rewrite Z.min_l by lia. rewrite Z.sub_diag. simpl. lia.
  - rewrite Z.min_l by lia. rewrite Z.sub_diag. simpl. lia.
  - rewrite Z.min_r by lia. split; [reflexivity |].
    rewrite pos_iter_xO. f_equal. f_equal. lia.
Qed.

Lemma Zdigits2_shift (m k : Z) : 0 < m -> 0 <= k -> Zdigits2 (m * 2 ^ k) = Zdigits2 m + k.
Proof.
  intros Hm Hk. destruct (Zdigits2_bounds m Hm) as [Hlo Hhi].
  pose proof (pow2_pos k Hk) as HP.
  assert (Hd : 1 <= Zdigits2 m) by (destruct m; simpl in *; lia).
  apply Zdigits2_unique; [| lia].
  replace (Zdigits2 m + k - 1) with (Zdigits2 m - 1 + k) by lia.
  rewrite !Z.pow_add_r by lia. nia.
Qed.

Lemma fexp_mono (a b : Z) : a <= b -> fexp 53 1024 a <= fexp 53 1024 b.
Proof. rewrite !fexp_eq. lia. Qed.

(** [binary_round] rounds the exact value [m * 2 ^ e], whatever [m] and [e]. *)
Lemma binary_round_Rnd (s : bool) (m : positive) (e : Z) :
  Rnd s (inject_Z (Z.pos m) * 2 ^ e) (binary_round 53 1024 s m e).
Proof.
  unfold binary_round.
  set (E0 := fexp 53 1024 (Z.pos (digits2_pos m) + e)).
  destruct (shl_align_spec m e E0) as [He Hm].
  destruct (shl_align m e E0) as [mz ez]. simpl in He, Hm. subst ez.
  set (ez := Z.min e E0) in *.
  assert (Hk : 0 <= e - ez) by (unfold ez; lia).
  apply (Rnd_ext s (inject_Z (Z.pos mz) / inject_Z 1 * 2 ^ ez)).
  - rewrite Hm, inject_Z_mult, Qpow2_inject by lia.
    assert (Hp : (2 ^ e == 2 ^ (e - ez) * 2 ^ ez)%Q).
    { rewrite <- Qpow2_add. replace (e - ez + ez) with e by lia. reflexivity. }
    rewrite Hp. change (inject_Z 1) with 1%Q. field.
  - apply binary_round_aux_Rnd.
    + apply rec_ok_of_loc_Exact. lia.
    + rewrite Hm, Zdigits2_shift by lia.
      replace (Zdigits2 (Z.pos m) + (e - ez) + ez) with (Z.pos (digits2_pos m) + e)
        by (simpl; lia).
      fold E0. unfold ez. lia.
Qed.

Lemma of_Z_pos_Rnd (z : Z) : 0 < z -> Rnd false (inject_Z z) (F64.of_Z z).
Proof.
  intros Hz. destruct z as [| p | p]; try lia. unfold F64.of_Z. simpl binary_normalize.
  apply (Rnd_ext false (inject_Z (Z.pos p) * 2 ^ 0)).
  - change (2 ^ 0)%Q with 1%Q. ring.
  - apply binary_round_Rnd.
Qed.

(** ** Multiplication *)

Lemma bounded_facts (m : positive) (e : Z) :
  bounded 53 1024 m e = true ->
  -1074 <= e <= 971 /\ Z.pos m < 2 ^ 53 /\ (-1074 < e -> 2 ^ 52 <= Z.pos m).
Proof.
  unfold bounded, canonical_mantissa. intros H.
  apply andb_true_iff in H. destruct H as [Hc He].
  apply Z.eqb_eq in Hc. apply Z.leb_le in He. rewrite fexp_eq in Hc.
  change (Z.pos (digits2_pos m)) with (Zdigits2 (Z.pos m)) in Hc.
  destruct (Zdigits2_bounds (Z.pos m)) as [Hlo Hhi]; [lia |].
  split; [lia |]. split.
  - eapply Z.lt_le_trans; [exact Hhi |]. apply Z.pow_le_mono_r; lia.
  - intros Hn. eapply Z.le_trans; [| exact Hlo]. apply Z.pow_le_mono_r; lia.
Qed.

Lemma mul_Rnd (sx sy : bool) (mx my : positive) (ex ey : Z) :
  bounded 53 1024 mx ex = true -> bounded 53 1024 my ey = true ->
  Rnd (xorb sx sy) (inject_Z (Z.pos mx) * 2 ^ ex * (inject_Z (Z.pos my) * 2 ^ ey))
      (F64.mul (S754_finite sx mx ex) (S754_finite sy my ey)).
Proof.
  intros Hx Hy. unfold F64.mul. simpl SFmul.
  apply (Rnd_ext _ (inject_Z (Z.pos (mx * my)) / inject_Z 1 * 2 ^ (ex + ey))).
  - rewrite Pos2Z.inj_mul, inject_Z_mult, Qpow2_add.
    change (inject_Z 1) with 1%Q. field.
  - apply binary_round_aux_Rnd.
    + apply rec_ok_of_loc_Exact. lia.
    + destruct (bounded_facts mx ex Hx) as (Hex & Hmx & Hnx).
      destruct (bounded_facts my ey Hy) as (Hey & Hmy & Hny).
      rewrite fexp_eq.
      destruct (Zdigits2_bounds (Z.pos mx)) as [Hlx _]; [lia |].
      destruct (Zdigits2_bounds (Z.pos my)) as [Hly _]; [lia |].
      assert (Hdx : 1 <= Zdigits2 (Z.pos mx)) by (simpl; lia).
      assert (Hdy : 1 <= Zdigits2 (Z.pos my)) by (simpl; lia).
      assert (Hd : Zdigits2 (Z.pos mx) + Zdigits2 (Z.pos my) - 1
                   <= Zdigits2 (Z.pos (mx * my))).
      { replace (Zdigits2 (Z.pos mx) + Zdigits2 (Z.pos my) - 1)
          with ((Zdigits2 (Z.pos mx) - 1) + (Zdigits2 (Z.pos my) - 1) + 1) by lia.
        apply Zdigits2_ge_pow; [lia |].
        rewrite Z.pow_add_r by lia. rewrite Pos2Z.inj_mul. nia. }
      destruct (Z.eq_dec ex (-1074)) as [Hex' | Hex'];
        destruct (Z.eq_dec ey (-1074)) as [Hey' | Hey'].
      * lia.
      * assert (53 <= Zdigits2 (Z.pos my)) by (apply (Zdigits2_ge_pow _ 52); lia). lia.
      * assert (53 <= Zdigits2 (Z.pos mx)) by (apply (Zdigits2_ge_pow _ 52); lia). lia.
      * assert (53 <= Zdigits2 (Z.pos my)) by (apply (Zdigits2_ge_pow _ 52); lia).
        assert (53 <= Zdigits2 (Z.pos mx)) by (apply (Zdigits2_ge_pow _ 52); lia). lia.
Qed.

(** ** Division *)

Lemma new_location_ok (D r q N : Z) :
  0 < D -> 0 <= r < D -> N = q * D + r -> 0 <= q ->
  rec_ok (shr_record_of_loc q (new_location D r)) N D.
Proof.
  intros HD Hr HN Hq. unfold new_location, new_location_even, new_location_odd.
  destruct (Z.even D) eqn:Hev.
  - destruct (Z.eqb_spec r 0) as [-> | Hr0].
    + unfold rec_ok. simpl. lia.
    + destruct (Z.compare_spec (2 * r) D); unfold rec_ok; simpl; lia.
  - assert (Hodd : Z.odd D = true) by (rewrite <- Z.negb_even, Hev; reflexivity).
    apply Z.odd_spec in Hodd. destruct Hodd as [a Ha].
    destruct (Z.eqb_spec r 0) as [-> | Hr0].
    + unfold rec_ok. simpl. lia.
    + destruct (Z.compare_spec (2 * r + 1) D); unfold rec_ok; simpl; lia.
Qed.

Lemma div_Rnd (sx sy : bool) (mx my : positive) (ex ey : Z) :
  Rnd (xorb sx sy)
      (inject_Z (Z.pos mx) * 2 ^ ex / (inject_Z (Z.pos my) * 2 ^ ey))
      (F64.div (S754_finite sx mx ex) (S754_finite sy my ey)).
Proof.
  unfold F64.div. simpl SFdiv. unfold SFdiv_core_binary.
  set (d1 := Zdigits2 (Z.pos mx)). set (d2 := Zdigits2 (Z.pos my)).
  set (e' := Z.min (fexp F64.prec F64.emax (d1 + ex - (d2 + ey))) (ex - ey)).
  set (sh := ex - ey - e').
  assert (Hsh : 0 <= sh) by (unfold sh, e'; lia).
  set (m' := match sh with
             | 0 => Z.pos mx
             | Z.pos _ => Z.shiftl (Z.pos mx) sh
             | Z.neg _ => 0
             end).
  assert (Hm' : m' = Z.pos mx * 2 ^ sh).
  { unfold m'. destruct sh as [| p | p] eqn:Hp; try lia.
    rewrite Z.shiftl_mul_pow2 by lia. reflexivity. }
  pose proof (pow2_pos sh Hsh) as HP.
  pose proof (Z_div_mod m' (Z.pos my) ltac:(lia)) as Hdm.
  destruct (Z.div_eucl m' (Z.pos my)) as [q r]. destruct Hdm as [Hdm Hr].
  assert (Hq : 0 <= q) by nia.
  apply (Rnd_ext _ (inject_Z m' / inject_Z (Z.pos my) * 2 ^ e')).
  - rewrite Hm', inject_Z_mult, Qpow2_inject by lia.
    assert (Hp : (2 ^ ex == 2 ^ sh * 2 ^ e' * 2 ^ ey)%Q).
    { rewrite <- !Qpow2_add. replace (sh + e' + ey) with ex by (unfold sh; lia).
      reflexivity. }
    rewrite Hp.
    pose proof (Qpow2_pos ey). assert (0 < inject_Z (Z.pos my))%Q by reflexivity.
    field. split; lra.
  - apply binary_round_aux_Rnd.
    + apply new_location_ok; lia.
    + eapply Z.le_trans; [apply Z.le_min_l |].
      apply fexp_mono.
      destruct (Zdigits2_bounds (Z.pos mx)) as [Hlx Hhx]; [lia |].
      destruct (Zdigits2_bounds (Z.pos my)) as [Hly Hhy]; [lia |].
      fold d1 in Hlx, Hhx. fold d2 in Hly, Hhy.
      assert (Hd1 : 1 <= d1) by (unfold d1; simpl; lia).
      assert (Hd2 : 1 <= d2) by (unfold d2; simpl; lia).
      pose proof (Zdigits2_nonneg q) as Hdq.
      destruct (Z_le_gt_dec (d1 - d2 + sh) 0) as [Hle | Hgt].
      * unfold sh in *. clear - Hle Hdq. clearbody e' d1 d2. lia.
      * assert (Hqlo : 2 ^ (d1 - d2 + sh - 1) <= q).
        { assert (Hlt : 2 ^ (d1 - d2 + sh - 1) * Z.pos my <= m').
          { rewrite Hm'.
            assert (2 ^ (d1 - d2 + sh - 1) * 2 ^ d2 = 2 ^ (d1 - 1) * 2 ^ sh).
            { rewrite <- !Z.pow_add_r by lia. f_equal. lia. }
            pose proof (pow2_pos (d1 - d2 + sh - 1) ltac:(lia)).
            assert (2 ^ (d1 - d2 + sh - 1) * Z.pos my < 2 ^ (d1 - d2 + sh - 1) * 2 ^ d2)
              by (apply Z.mul_lt_mono_pos_l; lia).
            assert (2 ^ (d1 - 1) * 2 ^ sh <= Z.pos mx * 2 ^ sh)
              by (apply Z.mul_le_mono_nonneg_r; lia).
            lia. }
          apply Z.lt_succ_r.
          apply (Z.mul_lt_mono_pos_r (Z.pos my)); [lia |].
          rewrite Hdm in Hlt. lia. }
        pose proof (Zdigits2_ge_pow q (d1 - d2 + sh - 1) ltac:(lia) Hqlo) as Hdq'.
        unfold sh in *. clear - Hdq'. clearbody e' d1 d2. lia.
Qed.

(** ** Addition and subtraction of non-negative numbers *)

Lemma aligned_value (m : positive) (e ez : Z) :
  ez <= e ->
  (inject_Z (Z.pos (fst (shl_align m e ez))) * 2 ^ ez == inject_Z (Z.pos m) * 2 ^ e)%Q.
Proof.
  intros Hle. destruct (shl_align_spec m e ez) as [_ Hm].
  rewrite Hm, Z.min_r by lia. rewrite inject_Z_mult, Qpow2_inject by lia.
  rewrite <- Qmult_assoc, <- Qpow2_add. replace (e - ez + ez) with e by lia.
  reflexivity.
Qed.

Lemma add_Rnd (mx my : positive) (ex ey : Z) :
  Rnd false (inject_Z (Z.pos mx) * 2 ^ ex + inject_Z (Z.pos my) * 2 ^ ey)
      (F64.add (S754_finite false mx ex) (S754_finite false my ey)).
Proof.
  unfold F64.add. simpl SFadd.
  set (ez := Z.min ex ey).
  pose proof (aligned_value mx ex ez ltac:(unfold ez; lia)) as Hx.
  pose proof (aligned_value my ey ez ltac:(unfold ez; lia)) as Hy.
  set (ax := fst (shl_align mx ex ez)) in *. set (ay := fst (shl_align my ey ez)) in *.
  change (Z.pos ax + Z.pos ay) with (Z.pos (ax + ay)). simpl binary_normalize.
  apply (Rnd_ext false (inject_Z (Z.pos (ax + ay)) * 2 ^ ez)).
  - rewrite Pos2Z.inj_add, inject_Z_plus, <- Hx, <- Hy. ring.
  - apply binary_round_Rnd.
Qed.

Lemma sub_Rnd (mx my : positive) (ex ey : Z) :
  (inject_Z (Z.pos my) * 2 ^ ey <= inject_Z (Z.pos mx) * 2 ^ ex)%Q ->
  let r := F64.sub (S754_finite false mx ex) (S754_finite false my ey) in
  r = S754_zero false \/
  Rnd false (inject_Z (Z.pos mx) * 2 ^ ex - inject_Z (Z.pos my) * 2 ^ ey) r.
Proof.
  intros Hle. unfold F64.sub. simpl SFsub.
  set (ez := Z.min ex ey).
  pose proof (aligned_value mx ex ez ltac:(unfold ez; lia)) as Hx.
  pose proof (aligned_value my ey ez ltac:(unfold ez; lia)) as Hy.
  set (ax := fst (shl_align mx ex ez)) in *. set (ay := fst (shl_align my ey ez)) in *.
  assert (Hord : Z.pos ay <= Z.pos ax).
  { rewrite Zle_Qle. apply (Qmult_le_r _ _ (2 ^ ez)); [apply Qpow2_pos |].
    rewrite Hx, Hy. exact Hle. }
  destruct (Z.pos ax - Z.pos ay) as [| p | p] eqn:Hd; try lia.
  - left. reflexivity.
  - right. simpl binary_normalize.
    apply (Rnd_ext false (inject_Z (Z.pos p) * 2 ^ ez)).
    + rewrite <- Hd, inject_Z_sub, <- Hx, <- Hy. ring.
    + apply binary_round_Rnd.
Qed.

(** ** Comparison of valid non-negative doubles *)

Lemma ltb_finite_pos (mx my : positive) (ex ey : Z) :
  bounded 53 1024 mx ex = true -> bounded 53 1024 my ey = true ->
  F64.ltb (S754_finite false mx ex) (S754_finite false my ey) = true ->
  (inject_Z (Z.pos mx) * 2 ^ ex < inject_Z (Z.pos my) * 2 ^ ey)%Q.
Proof.
  intros Hx Hy. unfold F64.ltb, SFltb. simpl SFcompare.
  destruct (bounded_facts mx ex Hx) as (Hex & Hmx & Hnx).
  destruct (bounded_facts my ey Hy) as (Hey & Hmy & Hny).
  destruct (Z.compare_spec ex ey) as [Heq | Hlt | Hgt]; try discriminate.
  - subst ey. rewrite Pos.compare_cont_spec. simpl.
    destruct (Pos.compare_spec mx my) as [| Hlt |]; try discriminate. intros _.
    apply Qmult_lt_r; [apply Qpow2_pos |]. rewrite <- Zlt_Qlt. lia.
  - intros _.
    assert (Hmxq : (inject_Z (Z.pos mx) < 2 ^ 53)%Q).
    { change (2 ^ 53)%Q with (inject_Z (2 ^ 53)). rewrite <- Zlt_Qlt. lia. }
    assert (Hmyq : (2 ^ 52 <= inject_Z (Z.pos my))%Q).
    { change (2 ^ 52)%Q with (inject_Z (2 ^ 52)). rewrite <- Zle_Qle. apply Hny. lia. }
    assert (Hpow : (2 ^ 53 * 2 ^ ex <= 2 ^ 52 * 2 ^ ey)%Q).
    { rewrite <- !Qpow2_add. apply Qpow2_le. lia. }
    pose proof (Qpow2_pos ex). pose proof (Qpow2_pos ey).
    apply Qlt_le_trans with (2 ^ 53 * 2 ^ ex)%Q.
    + apply Qmult_lt_r; assumption.
    + apply Qle_trans with (2 ^ 52 * 2 ^ ey)%Q; [exact Hpow |].
      apply Qmult_le_r; assumption.
Qed.

Lemma ltb_zero_nonneg (x : spec_float) : (x <? int 0)%f64 = negb (nonneg x).
Proof. destruct x as [[] | [] | | [] m e]; reflexivity. Qed.

Lemma good_split (x : spec_float) :
  good x = true <-> F64.valid x = true /\ nonneg x = true.
Proof. unfold good. apply andb_true_iff. Qed.

Lemma pack_false_shape (m2 E : Z) :
  pack false m2 E = S754_zero false \/ pack false m2 E = S754_infinity false \/
  exists m e, pack false m2 E = S754_finite false m e.
Proof.
  unfold pack.
  repeat match goal with |- context [if ?b then _ else _] => destruct b end; eauto.
Qed.

Lemma Rnd_shape (v : Q) (r : spec_float) :
  Rnd false v r ->
  r = S754_zero false \/ r = S754_infinity false \/ exists m e, r = S754_finite false m e.
Proof. intros (m2 & E & x & _ & _ & _ & _ & _ & ->). apply pack_false_shape. Qed.

Lemma Rnd_good (v : Q) (r : spec_float) : Rnd false v r -> good r = true.
Proof.
  intros H. apply good_split. split; [apply (Rnd_valid _ _ _ H) |].
  destruct (Rnd_shape v r H) as [-> | [-> | (m & e & ->)]]; reflexivity.
Qed.

Lemma Rnd_at_least (v c : Q) (r : spec_float) :
  Rnd false v r -> representable c -> (0 < c)%Q -> (c <= v)%Q -> at_least c r.
Proof.
  intros H Hrep Hc Hcv. split; [apply (Rnd_valid _ _ _ H) |].
  destruct (Rnd_lower false v c r H Hrep Hcv) as [Hinf | Hlo];
    destruct (Rnd_shape v r H) as [-> | [-> | (m & e & ->)]];
    simpl in *; try discriminate; try exact I; lra.
Qed.

Lemma at_least_weaken (a b : Q) (x : spec_float) :
  (b <= a)%Q -> at_least a x -> at_least b x.
Proof.
  intros Hba [Hv H]. split; [exact Hv |].
  destruct x as [s | [] | | [] m e]; try exact H. simpl in *. lra.
Qed.

Lemma at_least_good (c : Q) (x : spec_float) : at_least c x -> good x = true.
Proof.
  intros [Hv H]. apply good_split. split; [exact Hv |].
  destruct x as [s | [] | | [] m e]; simpl in *; tauto.
Qed.

(** ** Closure of non-negative values *)

Lemma good_mul (x y : spec_float) :
  good x = true -> good y = true -> good (x * y)%f64 = true.
Proof.
  intros Hx Hy. apply good_split in Hx, Hy. destruct Hx as [Vx Nx], Hy as [Vy Ny].
  destruct x as [sx | sx | | sx mx ex], y as [sy | sy | | sy my ey];
    try (destruct sx); try (destruct sy); try discriminate; try reflexivity.
  eapply Rnd_good. apply (mul_Rnd false false); assumption.
Qed.

Lemma good_add (x y : spec_float) :
  good x = true -> good y = true -> good (x + y)%f64 = true.
Proof.
  intros Hx Hy. pose proof Hx as Gx. pose proof Hy as Gy.
  apply good_split in Hx, Hy. destruct Hx as [Vx Nx], Hy as [Vy Ny].
  destruct x as [sx | sx | | sx mx ex], y as [sy | sy | | sy my ey];
    try (destruct sx); try (destruct sy); try discriminate; try reflexivity;
    try exact Gx; try exact Gy.
  eapply Rnd_good. apply add_Rnd.
Qed.

Lemma good_div (x y : spec_float) :
  good x = true -> good y = true -> F64.is_zero y = false -> good (x / y)%f64 = true.
Proof.
  intros Hx Hy Hz. apply good_split in Hx, Hy. destruct Hx as [Vx Nx], Hy as [Vy Ny].
  destruct x as [sx | sx | | sx mx ex], y as [sy | sy | | sy my ey];
    try (destruct sx); try (destruct sy); try discriminate; try reflexivity.
  eapply Rnd_good. apply (div_Rnd false false).
Qed.

Lemma truediv_good (x y : spec_float) :
  good x = true -> good y = true -> F64.is_zero y = false ->
  exists r, truediv x y = Ok r /\ good r = true.
Proof.
  intros Hx Hy Hz. unfold truediv. rewrite Hz. eexists. split; [reflexivity |].
  apply good_div; assumption.
Qed.

(** ** Lower bounds carried through the operations *)

Lemma at_least_add (a : Q) (x y : spec_float) :
  representable a -> (0 < a)%Q ->
  at_least a x -> good y = true ->
  F64.is_nan (x + y)%f64 = true \/ at_least a (x + y)%f64.
Proof.
  intros Hrep Ha [Vx Hx] Hy. pose proof (conj Vx Hx : at_least a x) as Ax.
  apply good_split in Hy. destruct Hy as [Vy Ny].
  destruct x as [sx | [] | | [] mx ex]; try contradiction;
    destruct y as [sy | [] | | [] my ey]; try discriminate;
    try (left; reflexivity); try (right; exact Ax);
    try (right; split; [reflexivity | exact I]).
  right. eapply Rnd_at_least; [apply add_Rnd | exact Hrep | exact Ha |].
  simpl in Hx.
  assert (0 < inject_Z (Z.pos my) * 2 ^ ey)%Q.
  { apply Qmult_lt_0_compat; [reflexivity | apply Qpow2_pos]. }
  lra.
Qed.

Lemma at_least_mul (a b c : Q) (x y : spec_float) :
  representable c -> (0 < c)%Q -> (0 <= a)%Q -> (0 <= b)%Q -> (c <= a * b)%Q ->
  at_least a x -> at_least b y -> at_least c (x * y)%f64.
Proof.
  intros Hrep Hc Ha Hb Hcab [Vx Hx] [Vy Hy].
  destruct x as [sx | [] | | [] mx ex]; try contradiction;
    destruct y as [sy | [] | | [] my ey]; try contradiction;
    try (split; [reflexivity | exact I]).
  eapply Rnd_at_least; [apply (mul_Rnd false false); assumption | exact Hrep | exact Hc |].
  simpl in Hx, Hy. nra.
Qed.

Lemma at_least_div (a c : Q) (x y : spec_float) (my : positive) (ey : Z) :
  y = S754_finite false my ey ->
  representable c -> (0 < c)%Q ->
  (c * (inject_Z (Z.pos my) * 2 ^ ey) <= a)%Q ->
  at_least a x -> at_least c (x / y)%f64.
Proof.
  intros -> Hrep Hc Hca [Vx Hx].
  destruct x as [sx | [] | | [] mx ex]; try contradiction;
    try (split; [reflexivity | exact I]).
  eapply Rnd_at_least; [apply (div_Rnd false false) | exact Hrep | exact Hc |].
  simpl in Hx.
  assert (Hy : (0 < inject_Z (Z.pos my) * 2 ^ ey)%Q).
  { apply Qmult_lt_0_compat; [reflexivity | apply Qpow2_pos]. }
  apply Qle_shift_div_l; [exact Hy |]. lra.
Qed.

Lemma representable_Z (z : Z) : 0 <= z < 2 ^ 53 -> representable (inject_Z z).
Proof.
  intros H. exists z, 0. split; [| lia].
  change (2 ^ 0)%Q with 1%Q. ring.
Qed.

(** Closed facts about constants are settled by evaluation. *)
Ltac by_evaluation :=
  vm_compute; first [reflexivity | discriminate | (let H := fresh in intro H; discriminate H)].

Lemma at_least_const (c : Q) (x : spec_float) (m : positive) (e : Z) :
  x = S754_finite false m e -> bounded 53 1024 m e = true ->
  (c <= inject_Z (Z.pos m) * 2 ^ e)%Q -> at_least c x.
Proof. intros -> Hb Hc. split; assumption. Qed.

Lemma ltb_zero_not_zero (x : spec_float) :
  (int 0 <? x)%f64 = true -> F64.is_zero x = false.
Proof. destruct x as [[] | [] | | [] m e]; simpl; try discriminate; reflexivity. Qed.

Lemma truediv_const (x y : spec_float) :
  F64.is_zero y = false -> truediv x y = Ok (x / y)%f64.
Proof. intros H. unfold truediv. rewrite H. reflexivity. Qed.

(** ** The supplement cost *)

Lemma adjusted_cost_bound (p xf fx w : spec_float) :
  good p = true -> good xf = true -> good fx = true -> good w = true ->
  exists a, adjusted_cost p xf fx w = Ok a /\
            (F64.is_nan a = true \/ at_least 380 a).
Proof.
  intros Hp Hxf Hfx Hw. unfold adjusted_cost.
  rewrite truediv_const by reflexivity. cbv beta iota delta [bind].
  eexists. split; [reflexivity |].
  apply at_least_add.
  - apply (representable_Z 380). lia.
  - reflexivity.
  - eapply at_least_const; [reflexivity | reflexivity | by_evaluation].
  - apply good_mul; [reflexivity |].
    apply good_add.
    + apply good_mul; [apply good_mul |]; assumption.
    + apply good_div; [| reflexivity | reflexivity].
      apply good_mul; [apply good_mul; [assumption | reflexivity] | assumption].
Qed.

Lemma py_min_3 (x : spec_float) : good x = true -> at_most_3 (py_min (int 3) x).
Proof.
  intros Hx. unfold py_min.
  destruct (x <? int 3)%f64 eqn:Hlt.
  - split; [exact Hx |].
    apply good_split in Hx. destruct Hx as [Vx Nx].
    destruct x as [sx | [] | | [] m e]; try discriminate; try exact I.
    pose proof (ltb_finite_pos m 6755399441055744 e (-51) Vx eq_refl Hlt) as H.
    simpl. assert (Hc : (inject_Z 6755399441055744 * 2 ^ (-51) == 3)%Q) by by_evaluation.
    rewrite Hc in H. lra.
  - split; [reflexivity |]. by_evaluation.
Qed.

Lemma dosage_adj_good (df : spec_float) : at_most_3 df -> good (dosage_adj df) = true.
Proof.
  intros [Hg H]. unfold dosage_adj.
  apply good_mul; [reflexivity |].
  destruct df as [s | s | | [] m e]; try contradiction.
  - reflexivity.
  - change (int 3) with (S754_finite false 6755399441055744 (-51)).
    destruct (sub_Rnd 6755399441055744 m (-51) e) as [Hz | HR].
    + simpl in H.
      assert (Hc : (inject_Z 6755399441055744 * 2 ^ (-51) == 3)%Q) by by_evaluation.
      rewrite Hc. exact H.
    + rewrite Hz. reflexivity.
    + eapply Rnd_good. exact HR.
Qed.

Lemma dose_chain (count dailyDose : spec_float) :
  good count = true -> good dailyDose = true ->
  exists ds ms df,
    days_supply count dailyDose = Ok ds /\ months_supply ds = Ok ms /\
    dose_factor ms = Ok df /\ good (dosage_adj df) = true.
Proof.
  intros Hc Hd.
  assert (Hds : exists ds, days_supply count dailyDose = Ok ds /\ good ds = true).
  { unfold days_supply. destruct (int 0 <? dailyDose)%f64 eqn:Hpos.
    - apply truediv_good; [assumption | assumption |].
      apply ltb_zero_not_zero, Hpos.
    - eexists. split; reflexivity. }
  destruct Hds as (ds & Hds & Gds).
  assert (Hms : exists ms, months_supply ds = Ok ms /\ good ms = true).
  { unfold months_supply. apply truediv_good; [assumption | reflexivity | reflexivity]. }
  destruct Hms as (ms & Hms & Gms).
  assert (Hdf : exists x, (if (int 0 <? ms)%f64 then truediv (int 3) ms else Ok (int 3)) = Ok x
                          /\ good x = true).
  { destruct (int 0 <? ms)%f64 eqn:Hpos.
    - apply truediv_good; [reflexivity | assumption |].
      apply ltb_zero_not_zero, Hpos.
    - eexists. split; reflexivity. }
  destruct Hdf as (x & Hx & Gx).
  exists ds, ms, (py_min (int 3) x).
  split; [exact Hds |]. split; [exact Hms |]. split.
  - unfold dose_factor. rewrite Hx. reflexivity.
  - apply dosage_adj_good, py_min_3, Gx.
Qed.

Theorem supplement_total_cost_bound (p fx w c d xf : spec_float) :
  good p = true -> good fx = true -> good w = true -> good c = true ->
  good d = true -> good xf = true ->
  exists t, supplement_total_cost p fx w c d xf = Ok t /\
            (F64.is_nan t = true \/ at_least 380 t).
Proof.
  intros Hp Hfx Hw Hc Hd Hxf. unfold supplement_total_cost.
  destruct (adjusted_cost_bound p xf fx w Hp Hxf Hfx Hw) as (a & Ha & Hbound).
  destruct (dose_chain c d Hc Hd) as (ds & ms & df & Hds & Hms & Hdf & Gadj).
  rewrite Ha; cbv beta iota delta [bind].
  rewrite Hds; cbv beta iota delta [bind].
  rewrite Hms; cbv beta iota delta [bind].
  rewrite Hdf; cbv beta iota delta [bind].
  eexists. split; [reflexivity |].
  destruct Hbound as [Hnan | Hal].
  - left. destruct a; try discriminate. reflexivity.
  - apply at_least_add; [apply (representable_Z 380); lia | reflexivity | exact Hal | exact Gadj].
Qed.

(** ** [math.ceil] *)

Lemma Qpow2_neg (e : Z) : e < 0 -> (2 ^ e == / inject_Z (2 ^ (- e)))%Q.
Proof.
  intros H. rewrite Qpow2_inject by lia. rewrite <- Qpower_opp.
  replace (- - e) with e by lia. reflexivity.
Qed.

Lemma ceil_finite_bounds (s : bool) (m : positive) (e : Z) :
  let x := F2Q (S754_finite s m e) in
  (x <= inject_Z (ceil_finite s m e) < x + 1)%Q.
Proof.
  unfold ceil_finite. simpl F2Q. set (n := if s then Z.neg m else Z.pos m).
  destruct (Z.leb_spec 0 e) as [He | He].
  - rewrite inject_Z_mult, Qpow2_inject by lia. split; lra.
  - set (P := 2 ^ (- e)). assert (HP : 0 < P) by (apply pow2_pos; lia).
    pose proof (Z_div_mod_eq_full (- n) P) as Hdiv.
    pose proof (Z.mod_pos_bound (- n) P HP) as Hmod.
    set (k := - (- n / P)).
    assert (Hk : n <= P * k < n + P) by (unfold k; lia).
    rewrite Qpow2_neg by lia. fold P.
    assert (HPq : (0 < inject_Z P)%Q) by (apply inject_Z_pos; exact HP).
    assert (H1 : (inject_Z n <= inject_Z P * inject_Z k)%Q).
    { rewrite <- inject_Z_mult, <- Zle_Qle. lia. }
    assert (H2 : (inject_Z P * inject_Z k < inject_Z n + inject_Z P)%Q).
    { rewrite <- inject_Z_mult, <- inject_Z_plus, <- Zlt_Qlt. lia. }
    assert (Hx : (inject_Z n * / inject_Z P * inject_Z P == inject_Z n)%Q)
      by (field; lra).
    split.
    + apply (Qmult_le_r _ _ (inject_Z P)); [exact HPq |]. rewrite Hx. lra.
    + apply (Qmult_lt_r _ _ (inject_Z P)); [exact HPq |].
      assert (Hy : ((inject_Z n * / inject_Z P + 1) * inject_Z P
                    == inject_Z n + inject_Z P)%Q) by (field; lra).
      rewrite Hy. lra.
Qed.

Lemma round_up_to_50_cases (raw : spec_float) :
  (exists K, round_up_to_50 raw = Ok (K * 50)) \/
  round_up_to_50 raw = Raise nan_error \/ round_up_to_50 raw = Raise inf_error.
Proof.
  unfold round_up_to_50. rewrite truediv_const by reflexivity.
  cbv beta iota delta [bind].
  destruct (raw / int 50)%f64 as [s | s | | s m e]; simpl; eauto.
Qed.

Lemma price_breakdown_cases (base total : spec_float) (final_price : Z) :
  (exists b, price_breakdown base total final_price = Ok b /\ finalPrice b = final_price) \/
  price_breakdown base total final_price = Raise int_error \/
  price_breakdown base total final_price = Raise zero_error.
Proof.
  unfold price_breakdown, float_of_int, truediv.
  destruct (F64.of_Z final_price) as [s | s | | s m e]; cbv beta iota delta [bind F64.is_zero];
    eauto.
Qed.

Lemma float_of_int_at_least (c : Q) (z : Z) :
  representable c -> (0 < c)%Q -> (c <= inject_Z z)%Q ->
  float_of_int z = Raise int_error \/
  exists m e, float_of_int z = Ok (S754_finite false m e).
Proof.
  intros Hrep Hc Hz.
  assert (Hpos : 0 < z).
  { rewrite Zlt_Qlt. change (inject_Z 0) with 0%Q. lra. }
  pose proof (Rnd_at_least _ c _ (of_Z_pos_Rnd z Hpos) Hrep Hc Hz) as [_ H].
  unfold float_of_int.
  destruct (F64.of_Z z) as [s | [] | | [] m e]; try contradiction; eauto.
Qed.

Lemma supplement_pricing (base total : spec_float) :
  F64.is_nan total = true \/ at_least 380 total ->
  let r := let* final_price := round_up_to_50 (final_price_raw total (lit 37 (-2))) in
           price_breakdown base total final_price in
  (exists b, r = Ok b /\ 550 <= finalPrice b) \/
  r = Raise nan_error \/ r = Raise inf_error \/ r = Raise int_error.
Proof.
  intros [Hnan | Hal]; cbv zeta.
  - destruct total; try discriminate. right. left. reflexivity.
  - assert (Hraw : at_least 520 (final_price_raw total (lit 37 (-2)))).
    { unfold final_price_raw.
      apply (at_least_mul 380 (137 # 100) 520).
      - apply (representable_Z 520). lia.
      - reflexivity.
      - discriminate.
      - discriminate.
      - by_evaluation.
      - exact Hal.
      - eapply at_least_const; [reflexivity | reflexivity | by_evaluation]. }
    set (raw := final_price_raw total (lit 37 (-2))) in *.
    assert (Hq : at_least (41 # 4) (raw / int 50)%f64).
    { eapply (at_least_div 520); [reflexivity | | reflexivity | by_evaluation | exact Hraw].
      exists 41, (-2). split; [by_evaluation | lia]. }
    unfold round_up_to_50. rewrite truediv_const by reflexivity.
    cbv beta iota delta [bind].
    destruct Hq as [_ Hq].
    destruct (raw / int 50)%f64 as [s | [] | | [] m e]; try contradiction.
    + right. right. left. reflexivity.
    + simpl math_ceil.
      pose proof (ceil_finite_bounds false m e) as [Hc _]. cbv zeta in Hc.
      set (K := ceil_finite false m e) in *.
      assert (HK : 11 <= K).
      { assert (H : (inject_Z 10 < inject_Z K)%Q).
        { change (inject_Z 10) with 10%Q. lra. }
        rewrite <- Zlt_Qlt in H. lia. }
      destruct (float_of_int_at_least 550 (K * 50)) as [Herr | (pm & pe & Hp)].
      * apply (representable_Z 550). lia.
      * reflexivity.
      * change 550%Q with (inject_Z 550). rewrite <- Zle_Qle. lia.
      * right. right. right. unfold price_breakdown. rewrite Herr. reflexivity.
      * left. unfold price_breakdown. rewrite Hp.
        cbv beta iota zeta delta [bind].
        rewrite truediv_const by reflexivity. cbv beta iota delta [bind].
        eexists. split; [reflexivity |]. simpl finalPrice. lia.
Qed.

(** ** Validity of converted inputs *)

Lemma valid_opp (x : spec_float) : F64.valid (F64.opp x) = F64.valid x.
Proof. destruct x; reflexivity. Qed.

Lemma of_Z_valid (z : Z) : F64.valid (F64.of_Z z) = true.
Proof.
  destruct z as [| p | p]; [reflexivity | |]; unfold F64.of_Z; simpl binary_normalize.
  - apply (Rnd_valid false _ _ (binary_round_Rnd false p 0)).
  - apply (Rnd_valid true _ _ (binary_round_Rnd true p 0)).
Qed.

Lemma of_decimal_valid (m e : Z) : F64.valid (F64.of_decimal m e) = true.
Proof.
  unfold F64.of_decimal. destruct m as [| p | p]; try reflexivity.
  destruct (0 <=? e); [apply of_Z_valid |].
  apply (Rnd_valid _ _ _ (div_Rnd false false p (Z.to_pos (10 ^ (- e))) 0 0)).
Qed.

Lemma with_sign_valid (s : bool) (x : spec_float) :
  F64.valid x = true -> F64.valid (with_sign s x) = true.
Proof. intros H. destruct s; simpl; [rewrite valid_opp |]; exact H. Qed.

Lemma parse_decimal_valid (l : list ascii) (x : spec_float) :
  parse_decimal l = Some x -> F64.valid x = true.
Proof.
  unfold parse_decimal.
  destruct (read_sign l) as [neg l1].
  destruct (read_digits l1 0 0) as [[ip ni] l2].
  assert (H : forall (m nf : Z) (l3 : list ascii),
             (if ni + nf =? 0 then None
              else let '(ex, l4) := read_exponent l3 in
                   match l4 with
                   | [] => Some (with_sign neg (F64.of_decimal m (ex - nf)))
                   | _ :: _ => None
                   end) = Some x -> F64.valid x = true).
  { intros m nf l3. destruct (ni + nf =? 0); [discriminate |].
    destruct (read_exponent l3) as [ex l4]. destruct l4; [| discriminate].
    intros [= <-]. apply with_sign_valid, of_decimal_valid. }
  destruct l2 as [| c l2'].
  - apply H.
  - destruct (is_char "." c).
    + destruct (read_digits l2' ip 0) as [[m n] r]. apply H.
    + apply H.
Qed.

Lemma float_of_string_valid (s : string) (x : spec_float) :
  float_of_string s = Some x -> F64.valid x = true.
Proof.
  unfold float_of_string.
  destruct (remove_underscores None (list_ascii_of_string s)) as [l |]; [| discriminate].
  destruct (parse_inf_or_nan (strip l)) as [y |] eqn:Hp.
  - intros [= <-]. unfold parse_inf_or_nan in Hp.
    destruct (read_sign (strip l)) as [neg l1].
    destruct (_ || _)%bool; [injection Hp as <-; reflexivity |].
    destruct (String.eqb _ _); [injection Hp as <-; reflexivity | discriminate].
  - apply parse_decimal_valid.
Qed.

Lemma py_float_valid (v : pyval) (f : spec_float) :
  wf_val v = true -> py_float v = Ok f -> F64.valid f = true.
Proof.
  destruct v; simpl; try discriminate.
  - intros _ [= <-]. apply of_Z_valid.
  - intros _. unfold float_of_int. pose proof (of_Z_valid z) as Hv.
    destruct (F64.of_Z z); try discriminate; intros [= <-]; exact Hv.
  - intros Hv [= <-]. exact Hv.
  - intros _. destruct (float_of_string s) eqn:Hs; [| discriminate].
    intros [= <-]. eapply float_of_string_valid, Hs.
Qed.

Lemma wf_inputs_lookup (inputs : gmap string pyval) (k : string) (v : pyval) :
  wf_inputs inputs = true -> inputs !! k = Some v -> wf_val v = true.
Proof.
  intros Hwf Hk. unfold wf_inputs in Hwf.
  rewrite forallb_forall in Hwf.
  apply (Hwf (k, v)). apply list_elem_of_In. apply elem_of_map_to_list. exact Hk.
Qed.

(** ** What validation establishes *)

Lemma validate_field_Ok (data : gmap string pyval) (field : string) :
  validate_field data field = Ok tt ->
  exists v f, data !! field = Some v /\ py_float v = Ok f /\ nonneg f = true.
Proof.
  unfold validate_field.
  destruct (data !! field) as [v |]; [| discriminate].
  destruct (is_int_float_str v); simpl; [| discriminate].
  destruct (py_float v) as [f | e] eqn:Hf.
  - rewrite ltb_zero_nonneg. destruct (nonneg f) eqn:Hn; simpl; [| discriminate].
    intros _. exists v, f. auto.
  - destruct e; discriminate.
Qed.

Lemma validate_fields_Ok (data : gmap string pyval) (fields : list string) (field : string) :
  validate_fields data fields = Ok true -> In field fields ->
  exists v f, data !! field = Some v /\ py_float v = Ok f /\ nonneg f = true.
Proof.
  induction fields as [| k rest IH]; [contradiction |].
  simpl validate_fields. destruct (validate_field data k) as [[] | e] eqn:Hk;
    [| discriminate].
  cbv beta iota delta [bind]. intros Hrest [<- | Hin].
  - apply validate_field_Ok, Hk.
  - apply IH; assumption.
Qed.

Lemma validated_field (data : gmap string pyval) (fields : list string)
    (field : string) (d : pyval) :
  wf_inputs data = true -> validate_fields data fields = Ok true -> In field fields ->
  exists f, py_float (dict_get_default data field d) = Ok f /\ good f = true.
Proof.
  intros Hwf Hv Hin.
  destruct (validate_fields_Ok data fields field Hv Hin) as (v & f & Hk & Hf & Hn).
  exists f. unfold dict_get_default. rewrite Hk. split; [exact Hf |].
  apply good_split. split; [| exact Hn].
  eapply py_float_valid; [| exact Hf]. eapply wf_inputs_lookup; eassumption.
Qed.

(** ** Multipliers *)

Lemma table_get_cases (a : attribute) (v : pyval) :
  (exists m, table_get (MULTIPLIERS a) v (int 1) = Ok m /\ good m = true) \/
  (hashable v = false /\ exists msg, table_get (MULTIPLIERS a) v (int 1) = Raise (TypeError msg)).
Proof.
  destruct v; simpl; try (left; eexists; split; reflexivity);
    try (right; split; [reflexivity | eexists; reflexivity]).
  left. eexists. split; [reflexivity |].
  destruct a; simpl;
    repeat match goal with
           | |- context [String.eqb ?x ?y] => destruct (String.eqb x y)
           end; reflexivity.
Qed.

Ltac step_bind := cbv beta iota delta [bind].

(** The five conversions and the five lookups of
    [calculate_supplement_price], on a validated input. *)
Lemma supplement_unfold (inputs : gmap string pyval) :
  wf_inputs inputs = true ->
  validate_supplement_inputs inputs = Ok true ->
  (hashable_inputs inputs = false /\
   exists msg, calculate_supplement_price inputs = Raise (TypeError msg) /\
               supplement_total_cost_of inputs = Raise (TypeError msg)) \/
  exists p fx w c d xf,
    good p = true /\ good fx = true /\ good w = true /\ good c = true /\
    good d = true /\ good xf = true /\
    py_float (dict_get_default inputs "dailyDose" (VInt 1)) = Ok d /\
    py_float (dict_get_default inputs "count" (VInt 0)) = Ok c /\
    supplement_total_cost_of inputs = supplement_total_cost p fx w c d xf /\
    calculate_supplement_price inputs =
      (let* total_cost := supplement_total_cost p fx w c d xf in
       let* final_price :=
         round_up_to_50 (final_price_raw total_cost (lit 37 (-2))) in
       price_breakdown (p * fx)%f64 total_cost final_price).
Proof.
  intros Hwf Hv. unfold validate_supplement_inputs in Hv.
  assert (Hf : forall k d, In k supplement_required_fields ->
             exists f, py_float (dict_get_default inputs k d) = Ok f /\ good f = true).
  { intros k d Hin. eapply validated_field; eassumption. }
  destruct (Hf "purchasePrice"%string (VInt 0)) as (p & Hp & Gp); [simpl; tauto |].
  destruct (Hf "fxRate"%string (VInt 50)) as (fx & Hfx & Gfx); [simpl; tauto |].
  destruct (Hf "weightGrams"%string (VInt 0)) as (w & Hw & Gw); [simpl; tauto |].
  destruct (Hf "count"%string (VInt 0)) as (c & Hc & Gc); [simpl; tauto |].
  destruct (Hf "dailyDose"%string (VInt 1)) as (d & Hd & Gd); [simpl; tauto |].
  unfold calculate_supplement_price, supplement_total_cost_of, hashable_inputs.
  rewrite Hp, Hfx, Hw, Hc, Hd. step_bind. simpl forallb.
  destruct (table_get_cases productShape (dict_get inputs "productShape"))
    as [(m1 & -> & G1) | (-> & msg & ->)];
    [| left; split; [reflexivity | exists msg; split; reflexivity]].
  destruct (table_get_cases packingMaterial (dict_get inputs "packingMaterial"))
    as [(m2 & -> & G2) | (-> & msg & ->)];
    [| left; split; [apply andb_false_r | exists msg; split; reflexivity]].
  destruct (table_get_cases bottleSize (dict_get inputs "bottleSize"))
    as [(m3 & -> & G3) | (-> & msg & ->)];
    [| left; split; [rewrite !andb_false_r; reflexivity | exists msg; split; reflexivity]].
  destruct (table_get_cases maleSupport (dict_get inputs "isMaleSupport"))
    as [(m4 & -> & G4) | (-> & msg & ->)];
    [| left; split; [rewrite !andb_false_r; reflexivity | exists msg; split; reflexivity]].
  destruct (table_get_cases importOrigin (dict_get inputs "importFrom"))
    as [(m5 & -> & G5) | (-> & msg & ->)];
    [| left; split; [rewrite !andb_false_r; reflexivity | exists msg; split; reflexivity]].
  right. step_bind.
  exists p, fx, w, c, d, (m1 * m2 * m3 * m4 * m5)%f64.
  repeat (split; [assumption |]).
  split; [repeat apply good_mul; assumption |].
  repeat split; first [assumption | reflexivity].
Qed.

Lemma supplement_result (inputs : gmap string pyval) :
  wf_inputs inputs = true ->
  validate_supplement_inputs inputs = Ok true ->
  let r := calculate_supplement_price inputs in
  (exists b, r = Ok b /\ 550 <= finalPrice b) \/
  r = Raise nan_error \/ r = Raise inf_error \/ r = Raise int_error \/
  (hashable_inputs inputs = false /\ exists msg, r = Raise (TypeError msg)).
Proof.
  intros Hwf Hv r. subst r.
  destruct (supplement_unfold inputs Hwf Hv)
    as [(Hh & msg & Hr & _) | (p & fx & w & c & d & xf & Gp & Gfx & Gw & Gc & Gd & Gxf & _ & _ & _ & Hr)].
  - right. right. right. right. split; [exact Hh |]. exists msg. exact Hr.
  - rewrite Hr.
    destruct (supplement_total_cost_bound p fx w c d xf Gp Gfx Gw Gc Gd Gxf)
      as (t & -> & Hb).
    step_bind.
    destruct (supplement_pricing (p * fx)%f64 t Hb) as [H | [H | [H | H]]]; tauto.
Qed.

(** C9, counterexample: the string ["nan"] passes validation as a price;
    the cost is then NaN, which is not at least 380, and [math.ceil]
    raises before any price exists. *)
Lemma nan_cost_is_not_at_least_380 :
  let inputs := plain_supplement (VStr "nan") (VInt 1) in
  validate_supplement_inputs inputs = Ok true /\
  supplement_total_cost_of inputs = Ok S754_nan /\
  F64.leb (int 380) S754_nan = false /\
  calculate_supplement_price inputs = Raise nan_error.
Proof. cbv zeta. repeat split; vm_compute; reflexivity. Qed.

(** C9, as amended: on a validated supplement input the unrounded cost,
    when it is not NaN, is [+inf] or a finite number that is at least 380;
    the price of a returned breakdown is at least 550, hence positive; and
    the margin division never divides by zero. *)
Theorem supplement_cost_at_least_380 (inputs : gmap string pyval) :
  wf_inputs inputs = true ->
  validate_supplement_inputs inputs = Ok true ->
  (forall t, supplement_total_cost_of inputs = Ok t ->
             F64.is_nan t = false -> at_least 380 t) /\
  (forall b, calculate_supplement_price inputs = Ok b -> 550 <= finalPrice b) /\
  (forall msg, calculate_supplement_price inputs <> Raise (ZeroDivisionError msg)).
Proof.
  intros Hwf Hv. split; [| split].
  - intros t Ht Hnan.
    destruct (supplement_unfold inputs Hwf Hv)
      as [(_ & msg & _ & Hr) | (p & fx & w & c & d & xf & Gp & Gfx & Gw & Gc & Gd & Gxf & _ & _ & Hr & _)].
    + congruence.
    + rewrite Hr in Ht.
      destruct (supplement_total_cost_bound p fx w c d xf Gp Gfx Gw Gc Gd Gxf)
        as (t' & Ht' & Hb).
      assert (t' = t) by congruence. subst t'.
      destruct Hb as [Hb | Hb]; [congruence | exact Hb].
  - intros b Hb.
    destruct (supplement_result inputs Hwf Hv)
      as [(b' & Hr & Hge) | [H | [H | [H | (_ & msg & H)]]]]; congruence.
  - intros msg Hr.
    destruct (supplement_result inputs Hwf Hv)
      as [(b' & Hr' & _) | [H | [H | [H | (_ & msg' & H)]]]];
      unfold nan_error, inf_error, int_error in *; congruence.
Qed.

Lemma supplement_cost_at_least_380_witness :
  550 <= finalPrice supplement_scenario_result.
Proof.
  refine (proj1 (proj2 (supplement_cost_at_least_380 supplement_scenario _ _))
            supplement_scenario_result _).
  - vm_compute. reflexivity.
  - vm_compute. reflexivity.
  - vm_compute. reflexivity.
Defined.

(** ** The device cost *)

Lemma device_total_cost_good (p fx l w h wt mm om : spec_float) :
  good p = true -> good fx = true -> good l = true -> good w = true ->
  good h = true -> good wt = true -> good mm = true -> good om = true ->
  exists t, device_total_cost p fx l w h wt mm om = Ok t /\ good t = true.
Proof.
  intros Gp Gfx Gl Gw Gh Gwt Gmm Gom. unfold device_total_cost.
  rewrite truediv_const by reflexivity. step_bind.
  eexists. split; [reflexivity |].
  repeat apply good_mul; try assumption.
  apply good_add; [apply good_add; [reflexivity |] |].
  - apply good_div; [| reflexivity | reflexivity].
    repeat apply good_mul; assumption.
  - apply good_mul; [assumption | reflexivity].
Qed.

Lemma device_unfold (inputs : gmap string pyval) :
  wf_inputs inputs = true ->
  validate_device_inputs inputs = Ok true ->
  (hashable_inputs inputs = false /\
   exists msg, calculate_device_price inputs = Raise (TypeError msg) /\
               device_total_cost_of inputs = Raise (TypeError msg)) \/
  exists p fx t,
    good p = true /\ good fx = true /\ good t = true /\
    device_total_cost_of inputs = Ok t /\
    calculate_device_price inputs =
      (let* final_price := round_up_to_50 (final_price_raw t (lit 15 (-2))) in
       price_breakdown (p * fx)%f64 t final_price).
Proof.
  intros Hwf Hv. unfold validate_device_inputs in Hv.
  assert (Hf : forall k d, In k device_required_fields ->
             exists f, py_float (dict_get_default inputs k d) = Ok f /\ good f = true).
  { intros k d Hin. eapply validated_field; eassumption. }
  destruct (Hf "purchasePrice"%string (VInt 0)) as (p & Hp & Gp); [simpl; tauto |].
  destruct (Hf "fxRate"%string (VInt 50)) as (fx & Hfx & Gfx); [simpl; tauto |].
  destruct (Hf "lengthCm"%string (VInt 0)) as (l & Hl & Gl); [simpl; tauto |].
  destruct (Hf "widthCm"%string (VInt 0)) as (w & Hw & Gw); [simpl; tauto |].
  destruct (Hf "heightCm"%string (VInt 0)) as (h & Hh & Gh); [simpl; tauto |].
  destruct (Hf "weightKg"%string (VInt 0)) as (wt & Hwt & Gwt); [simpl; tauto |].
  unfold calculate_device_price, device_total_cost_of, hashable_inputs.
  rewrite Hp, Hfx, Hl, Hw, Hh, Hwt. step_bind. simpl forallb.
  destruct (table_get_cases maleSupport (dict_get inputs "isMaleSupport"))
    as [(m4 & -> & G4) | (-> & msg & ->)];
    [| left; split; [rewrite !andb_false_r; reflexivity | exists msg; split; reflexivity]].
  destruct (table_get_cases importOrigin (dict_get inputs "importFrom"))
    as [(m5 & -> & G5) | (-> & msg & ->)];
    [| left; split; [rewrite !andb_false_r; reflexivity | exists msg; split; reflexivity]].
  right. step_bind.
  destruct (device_total_cost_good p fx l w h wt m4 m5) as (t & Ht & Gt); try assumption.
  rewrite Ht. step_bind.
  exists p, fx, t. repeat split; first [assumption | reflexivity].
Qed.

Lemma pricing_cases (base total margin : spec_float) :
  let r := let* final_price := round_up_to_50 (final_price_raw total margin) in
           price_breakdown base total final_price in
  returns r \/ r = Raise nan_error \/ r = Raise inf_error \/ r = Raise int_error \/
  r = Raise zero_error.
Proof.
  cbv zeta.
  destruct (round_up_to_50_cases (final_price_raw total margin))
    as [(K & ->) | [-> | ->]]; step_bind; [| tauto | tauto].
  destruct (price_breakdown_cases base total (K * 50)) as [(b & -> & _) | [-> | ->]];
    simpl; tauto.
Qed.

(** ** Costs in range *)

Lemma representable_pow2 (k : Z) : 0 <= k -> representable (2 ^ k).
Proof.
  intros Hk. exists 1, k. split; [| lia]. change (inject_Z 1) with 1%Q. ring.
Qed.

Lemma Rnd_Fmag_F2Q (v : Q) (r : spec_float) : Rnd false v r -> (F2Q r == Fmag r)%Q.
Proof.
  intros H. destruct (Rnd_shape v r H) as [-> | [-> | (m & e & ->)]]; reflexivity.
Qed.

Lemma pricing_in_range (base total margin : spec_float) :
  let raw := final_price_raw total margin in
  let r := let* final_price := round_up_to_50 raw in
           price_breakdown base total final_price in
  F64.is_finite raw = true -> nonneg raw = true -> (F2Q raw <= 2 ^ 1000)%Q ->
  returns r \/ r = Raise zero_error.
Proof.
  cbv zeta. set (raw := final_price_raw total margin).
  intros Hfin Hnn Hle.
  unfold round_up_to_50. rewrite truediv_const by reflexivity. step_bind.
  destruct raw as [s | s | | [] m e]; try discriminate.
  - (* a zero cost *)
    right. destruct s; reflexivity.
  - change (int 50) with (S754_finite false 7036874417766400 (-47)).
    pose proof (div_Rnd false false m 7036874417766400 e (-47)) as HR.
    simpl xorb in HR.
    set (q := (S754_finite false m e / S754_finite false 7036874417766400 (-47))%f64) in *.
    simpl F2Q in Hle.
    assert (Hpos : (0 < inject_Z (Z.pos m) * 2 ^ e)%Q).
    { apply Qmult_lt_0_compat; [reflexivity | apply Qpow2_pos]. }
    assert (H50 : (inject_Z 7036874417766400 * 2 ^ (-47) == 50)%Q) by by_evaluation.
    destruct (Rnd_upper false _ (2 ^ 1000) q HR) as [Hinf Hq].
    + apply representable_pow2. lia.
    + rewrite H50. apply Qle_shift_div_r; [reflexivity |]. lra.
    + apply Qpower_lt_compat_l; [lia | reflexivity].
    + destruct (Rnd_shape _ q HR) as [Hz | [Hi | (qm & qe & Hqf)]].
      * rewrite Hz. right. reflexivity.
      * rewrite Hi in Hinf. discriminate.
      * rewrite Hqf in *. simpl math_ceil. step_bind.
        pose proof (ceil_finite_bounds false qm qe) as [Hc1 Hc2]. cbv zeta in Hc1, Hc2.
        set (K := ceil_finite false qm qe) in *.
        simpl Fmag in Hq. simpl F2Q in Hc1, Hc2.
        assert (Hqpos : (0 < inject_Z (Z.pos qm) * 2 ^ qe)%Q).
        { apply Qmult_lt_0_compat; [reflexivity | apply Qpow2_pos]. }
        assert (HK1 : 1 <= K).
        { assert (H : (inject_Z 0 < inject_Z K)%Q) by (change (inject_Z 0) with 0%Q; lra).
          rewrite <- Zlt_Qlt in H. lia. }
        assert (HK2 : K <= 2 ^ 1000).
        { assert (H : (inject_Z K < inject_Z (2 ^ 1000 + 1))%Q).
          { rewrite inject_Z_plus, Qpow2_inject by lia. change (inject_Z 1) with 1%Q. lra. }
          rewrite <- Zlt_Qlt in H. lia. }
        pose proof (of_Z_pos_Rnd (K * 50) ltac:(lia)) as HRp.
        destruct (Rnd_upper false _ (2 ^ 1006) _ HRp) as [Hpinf _].
        { apply representable_pow2. lia. }
        { rewrite <- Qpow2_inject by lia. rewrite <- Zle_Qle.
          replace 1006 with (1000 + 6) by lia. rewrite Z.pow_add_r by lia.
          change (2 ^ 6) with 64. lia. }
        { apply Qpower_lt_compat_l; [lia | reflexivity]. }
        destruct (Rnd_lower false _ 1 _ HRp) as [Hpi | Hplo].
        { apply (representable_Z 1). lia. }
        { change 1%Q with (inject_Z 1). rewrite <- Zle_Qle. lia. }
        { congruence. }
        left. unfold price_breakdown, float_of_int.
        destruct (Rnd_shape _ _ HRp) as [Hz | [Hi | (pm & pe & Hpf)]].
        -- rewrite Hz in Hplo. simpl in Hplo. lra.
        -- rewrite Hi in Hpinf. discriminate.
        -- rewrite Hpf. step_bind. rewrite truediv_const by reflexivity. exact I.
Qed.

(** ** Claims C1 and C4 *)

(** C1, counterexample: a device whose price is 0 passes validation and
    makes [calculate_device_price] raise [ZeroDivisionError] at the margin
    division; a supplement whose price is [10 ^ 308] passes validation and
    makes [calculate_supplement_price] raise [OverflowError]. *)
Lemma validated_inputs_that_raise :
  validate_device_inputs (flat_device (VInt 0)) = Ok true /\
  calculate_device_price (flat_device (VInt 0)) = Raise zero_error /\
  validate_supplement_inputs (plain_supplement (VInt (10 ^ 308)) (VInt 1)) = Ok true /\
  calculate_supplement_price (plain_supplement (VInt (10 ^ 308)) (VInt 1)) = Raise inf_error.
Proof. repeat split; vm_compute; reflexivity. Qed.

Lemma supplement_outcome (inputs : gmap string pyval) :
  wf_inputs inputs = true ->
  hashable_inputs inputs = true ->
  validate_supplement_inputs inputs = Ok true ->
  let r := calculate_supplement_price inputs in
  (returns r \/ exists e, r = Raise e /\ pricing_error e) /\
  (forall t, supplement_total_cost_of inputs = Ok t ->
             in_range (final_price_raw t (lit 37 (-2))) -> returns r).
Proof.
  intros Hwf Hh Hv r. subst r.
  destruct (supplement_unfold inputs Hwf Hv)
    as [(Hh' & _) | (p & fx & w & c & d & xf & Gp & Gfx & Gw & Gc & Gd & Gxf & _ & _ & Ht & Hr)];
    [congruence |].
  destruct (supplement_total_cost_bound p fx w c d xf Gp Gfx Gw Gc Gd Gxf)
    as (t & Ht' & Hb).
  rewrite Ht' in Ht, Hr. rewrite Hr. step_bind.
  pose proof (supplement_pricing (p * fx)%f64 t Hb) as Hcases.
  cbv beta iota zeta delta [bind] in Hcases.
  split.
  - destruct Hcases as [(b & -> & _) | [-> | [-> | ->]]];
      [left; exact I | right .. ]; eexists; (split; [reflexivity |]);
      unfold pricing_error; tauto.
  - intros t' Ht'' (Hfin & Hnn & Hle).
    assert (t' = t) by congruence. subst t'.
    pose proof (pricing_in_range (p * fx)%f64 t (lit 37 (-2)) Hfin Hnn Hle) as Hin.
    cbv beta iota zeta delta [bind] in Hin.
    destruct Hin as [Hret | Hz]; [exact Hret |].
    destruct Hcases as [(b & Hb' & _) | [H | [H | H]]];
      rewrite Hz in *; unfold zero_error, nan_error, inf_error, int_error in *;
      discriminate.
Qed.

Lemma device_outcome (inputs : gmap string pyval) :
  wf_inputs inputs = true ->
  hashable_inputs inputs = true ->
  validate_device_inputs inputs = Ok true ->
  let r := calculate_device_price inputs in
  (returns r \/ (exists e, r = Raise e /\ pricing_error e) \/ r = Raise zero_error) /\
  (forall t, device_total_cost_of inputs = Ok t ->
             in_range (final_price_raw t (lit 15 (-2))) ->
             returns r \/ r = Raise zero_error).
Proof.
  intros Hwf Hh Hv r. subst r.
  destruct (device_unfold inputs Hwf Hv)
    as [(Hh' & _) | (p & fx & t & Gp & Gfx & Gt & Ht & Hr)]; [congruence |].
  rewrite Hr. step_bind. split.
  - pose proof (pricing_cases (p * fx)%f64 t (lit 15 (-2))) as Hcases.
    cbv beta iota zeta delta [bind] in Hcases.
    destruct Hcases as [H | [H | [H | [H | H]]]]; [tauto | | | | tauto];
      right; left; eexists; (split; [exact H |]); unfold pricing_error; tauto.
  - intros t' Ht' (Hfin & Hnn & Hle).
    assert (t' = t) by congruence. subst t'.
    pose proof (pricing_in_range (p * fx)%f64 t (lit 15 (-2)) Hfin Hnn Hle) as Hin.
    cbv beta iota zeta delta [bind] in Hin. exact Hin.
Qed.

(** C1, as amended: on a validated input whose categorical values can be
    hashed, each formula returns a breakdown or fails at the pricing step
    only (the cost is NaN or infinite, or the price is too large for a
    float); the supplement formula never divides by zero, and returns a
    breakdown whenever its cost times the margin is finite and at most
    [2 ^ 1000].  Nothing is promised about the margin division of the
    device formula when the price is 0. *)
Theorem formulas_fail_only_at_pricing (inputs : gmap string pyval) :
  wf_inputs inputs = true ->
  hashable_inputs inputs = true ->
  (validate_supplement_inputs inputs = Ok true ->
   let r := calculate_supplement_price inputs in
   (returns r \/ exists e, r = Raise e /\ pricing_error e) /\
   (forall t, supplement_total_cost_of inputs = Ok t ->
              in_range (final_price_raw t (lit 37 (-2))) -> returns r)) /\
  (validate_device_inputs inputs = Ok true ->
   let r := calculate_device_price inputs in
   (returns r \/ (exists e, r = Raise e /\ pricing_error e) \/ r = Raise zero_error) /\
   (forall t, device_total_cost_of inputs = Ok t ->
              in_range (final_price_raw t (lit 15 (-2))) ->
              returns r \/ r = Raise zero_error)).
Proof.
  intros Hwf Hh. split; intros Hv.
  - apply supplement_outcome; assumption.
  - apply device_outcome; assumption.
Qed.

Lemma formulas_fail_only_at_pricing_witness :
  returns (calculate_supplement_price supplement_scenario) /\
  (returns (calculate_device_price device_scenario) \/
   calculate_device_price device_scenario = Raise zero_error).
Proof.
  split.
  - refine (proj2 (proj1 (formulas_fail_only_at_pricing supplement_scenario _ _) _)
              (S754_finite false 5045438957538508 (-42)) _ _).
    + vm_compute. reflexivity.
    + vm_compute. reflexivity.
    + vm_compute. reflexivity.
    + vm_compute. reflexivity.
    + repeat split; by_evaluation.
  - refine (proj2 (proj2 (formulas_fail_only_at_pricing device_scenario _ _) _)
              (int 65000) _ _).
    + vm_compute. reflexivity.
    + vm_compute. reflexivity.
    + vm_compute. reflexivity.
    + vm_compute. reflexivity.
    + repeat split; by_evaluation.
Defined.

(** C4, counterexample: with a daily dose of 0 and a price of [10 ^ 308] the
    input passes validation and [calculate_supplement_price] raises
    [OverflowError]. *)
Lemma zero_dose_input_that_raises :
  let inputs := plain_supplement (VInt (10 ^ 308)) (VInt 0) in
  validate_supplement_inputs inputs = Ok true /\
  py_float (dict_get_default inputs "dailyDose" (VInt 1)) = Ok (S754_zero false) /\
  calculate_supplement_price inputs = Raise inf_error.
Proof. cbv zeta. repeat split; vm_compute; reflexivity. Qed.

(** C4, as amended: on a validated supplement input whose daily dose is
    exactly 0 the guard takes the fallback, [days_supply] is 30 and
    [months_supply] is 1 whatever the count, no division by zero is raised,
    and the formula returns a breakdown unless it fails at the pricing step
    (the cost is NaN or overflows); it returns one whenever the cost times
    the margin is finite and at most [2 ^ 1000]. *)
Theorem zero_daily_dose_takes_fallback (inputs : gmap string pyval) (d : spec_float) :
  wf_inputs inputs = true ->
  hashable_inputs inputs = true ->
  validate_supplement_inputs inputs = Ok true ->
  py_float (dict_get_default inputs "dailyDose" (VInt 1)) = Ok d ->
  F64.is_zero d = true ->
  (forall count, days_supply count d = Ok (int 30)) /\
  months_supply (int 30) = Ok (int 1) /\
  dose_factor (int 1) = Ok (int 3) /\
  dosage_adj (int 3) = S754_zero false /\
  let r := calculate_supplement_price inputs in
  (returns r \/ exists e, r = Raise e /\ pricing_error e) /\
  (forall t, supplement_total_cost_of inputs = Ok t ->
             in_range (final_price_raw t (lit 37 (-2))) -> returns r).
Proof.
  intros Hwf Hh Hv Hd Hz.
  split; [| split; [| split; [| split]]].
  - intros count. unfold days_supply. destruct d as [[] | | |]; try discriminate; reflexivity.
  - vm_compute. reflexivity.
  - vm_compute. reflexivity.
  - vm_compute. reflexivity.
  - apply supplement_outcome; assumption.
Qed.

Lemma zero_daily_dose_takes_fallback_witness :
  days_supply (int 60) (S754_zero false) = Ok (int 30).
Proof.
  refine (proj1 (zero_daily_dose_takes_fallback
                   (plain_supplement (VInt 10) (VInt 0)) (S754_zero false) _ _ _ _ _)
            (int 60)).
  - vm_compute. reflexivity.
  - vm_compute. reflexivity.
  - vm_compute. reflexivity.
  - vm_compute. reflexivity.
  - reflexivity.
Defined.

(** ** Relative error of rounding *)

Lemma Rnd_normal (v : Q) (m2 E : Z) (x : Q) :
  (v == x * 2 ^ E)%Q -> -1074 <= E -> (0 <= x < 9007199254740992)%Q ->
  (2 ^ (-1021) <= v)%Q -> -1074 < E.
Proof.
  intros Hv HE Hx Hlo.
  destruct (Z.eq_dec E (-1074)) as [-> | Hne]; [exfalso | lia].
  assert (H : (x * 2 ^ (-1074) < 9007199254740992 * 2 ^ (-1074))%Q).
  { apply Qmult_lt_r; [apply Qpow2_pos | tauto]. }
  assert (Hc : (9007199254740992 * 2 ^ (-1074) == 2 ^ (-1021))%Q).
  { change 9007199254740992%Q with (2 ^ 53)%Q. rewrite <- Qpow2_add. reflexivity. }
  rewrite Hc, <- Hv in H. lra.
Qed.

(** In the normal range the rounded magnitude is at least
    [(1 - 2 ^ (-53))] times the exact one. *)
Lemma Rnd_rel_lower (v : Q) (r : spec_float) :
  Rnd false v r -> is_inf r = false -> (2 ^ (-1021) <= v)%Q ->
  (v * (9007199254740991 # 9007199254740992) <= Fmag r)%Q.
Proof.
  intros (m2 & E & x & Hv & HE & Hx & Hnorm & Hm2 & ->) Hinf Hlo.
  destruct (Rnd_m2 x m2 E Hx Hnorm Hm2) as [Hm2z _].
  rewrite (pack_value false m2 E) by (lia || assumption).
  pose proof (Rnd_normal v m2 E x Hv HE Hx Hlo) as HEn.
  specialize (Hnorm HEn).
  rewrite Hv.
  assert (H : (x * (9007199254740991 # 9007199254740992) <= inject_Z m2)%Q) by lra.
  pose proof (Qpow2_pos E) as HEpos.
  apply Qle_trans with (x * (9007199254740991 # 9007199254740992) * 2 ^ E)%Q.
  - apply Qle_lteq. right. ring.
  - apply Qmult_le_r; assumption.
Qed.

(** ** [round(x, 0)] *)

Lemma round_half_even_div_bounds (n d : Z) :
  0 <= n -> 0 < d ->
  let q := round_half_even_div n d in
  0 <= q /\ 2 * n - d <= 2 * q * d <= 2 * n + d.
Proof.
  intros Hn Hd. unfold round_half_even_div.
  pose proof (Z_div_mod_eq_full n d) as Hdiv.
  pose proof (Z.mod_pos_bound n d Hd) as Hmod.
  assert (Hq : 0 <= n / d) by (apply Z.div_pos; lia).
  destruct (Z.compare_spec (2 * (n mod d)) d); try destruct (Z.even (n / d)); nia.
Qed.

Lemma py_round_0_le (m : positive) (e : Z) :
  bounded 53 1024 m e = true ->
  let x := S754_finite false m e in
  (F2Q (py_round x 0) <= F2Q x + (1 # 2))%Q.
Proof.
  intros Hb. cbv zeta. unfold py_round.
  destruct (Z.leb_spec 0 e) as [He | He]; [lra |].
  rewrite Z.pow_0_r, Z.mul_1_r.
  set (P := 2 ^ (- e)). assert (HP : 0 < P) by (apply pow2_pos; lia).
  destruct (round_half_even_div_bounds (Z.pos m) P ltac:(lia) HP) as [Hq0 [_ Hq1]].
  set (q := round_half_even_div (Z.pos m) P) in *.
  destruct (bounded_facts m e Hb) as (_ & Hm & _).
  assert (HP2 : 2 <= P).
  { unfold P. change 2 with (2 ^ 1) at 1. apply Z.pow_le_mono_r; lia. }
  assert (Hqlt : q < 2 ^ 53) by nia.
  simpl F2Q at 2. rewrite Qpow2_neg by lia. fold P.
  assert (HPq : (0 < inject_Z P)%Q) by (apply inject_Z_pos; exact HP).
  assert (Hbound : (inject_Z q <= inject_Z (Z.pos m) * / inject_Z P + (1 # 2))%Q).
  { apply (Qmult_le_r _ _ (inject_Z P)); [exact HPq |].
    assert (Hy : ((inject_Z (Z.pos m) * / inject_Z P + (1 # 2)) * inject_Z P
                  == inject_Z (Z.pos m) + (1 # 2) * inject_Z P)%Q) by (field; lra).
    rewrite Hy.
    assert (Hz : (inject_Z (2 * q * P) <= inject_Z (2 * Z.pos m + P))%Q)
      by (rewrite <- Zle_Qle; lia).
    rewrite !inject_Z_plus, !inject_Z_mult in Hz. change (inject_Z 2) with 2%Q in Hz.
    lra. }
  simpl Z.opp. unfold with_sign, F64.of_decimal.
  destruct q as [| p | p] eqn:Hq; try lia.
  - simpl F2Q. pose proof (Qpow2_pos 0).
    assert (0 < inject_Z (Z.pos m) * / inject_Z P)%Q.
    { apply Qmult_lt_0_compat; [reflexivity | apply Qinv_lt_0_compat; exact HPq]. }
    lra.
  - simpl (0 <=? 0). cbv iota. rewrite Z.pow_0_r, Z.mul_1_r.
    pose proof (of_Z_pos_Rnd (Z.pos p) ltac:(lia)) as HR.
    destruct (Rnd_exact false _ _ HR) as [_ Hval].
    + apply representable_Z. lia.
    + apply Qlt_trans with (inject_Z (2 ^ 53)).
      * rewrite <- Zlt_Qlt. lia.
      * by_evaluation.
    + rewrite (Rnd_Fmag_F2Q _ _ HR), Hval. exact Hbound.
Qed.

(** ** The price a breakdown carries *)

(** What a returned breakdown says of the steps that led to it. *)
Lemma pricing_Ok_inv (base total raw : spec_float) (b : breakdown) :
  (let* final_price := round_up_to_50 raw in
   price_breakdown base total final_price) = Ok b ->
  exists K, math_ceil (raw / int 50)%f64 = Ok K /\ K <> 0 /\
            finalPrice b = K * 50 /\ totalCost b = py_round total 0.
Proof.
  unfold round_up_to_50. rewrite truediv_const by reflexivity. step_bind.
  destruct (math_ceil (raw / int 50)%f64) as [K | e]; [| discriminate].
  intros H. exists K. split; [reflexivity |].
  destruct (Z.eq_dec K 0) as [-> | HK]; [discriminate H |].
  split; [exact HK |].
  destruct (price_breakdown_cases base total (K * 50)) as [(b' & Hb & Hfp) | [Hb | Hb]];
    rewrite Hb in H; try discriminate.
  injection H as <-. split; [exact Hfp |].
  unfold price_breakdown in Hb.
  destruct (float_of_int (K * 50)) as [p |]; [| discriminate].
  revert Hb. step_bind.
  destruct (truediv (p - total)%f64 p); [| discriminate].
  intros [= <-]. reflexivity.
Qed.

(** The quotient by 50 of a positive cost, and its ceiling. *)
Lemma quotient_ceiling (raw : spec_float) (K : Z) :
  good raw = true -> math_ceil (raw / int 50)%f64 = Ok K -> K <> 0 ->
  exists mr er qm qe,
    raw = S754_finite false mr er /\ bounded 53 1024 mr er = true /\
    (raw / int 50)%f64 = S754_finite false qm qe /\
    Rnd false (F2Q raw / 50) (S754_finite false qm qe) /\
    1 <= K /\ (Fmag (S754_finite false qm qe) <= inject_Z K < Fmag (S754_finite false qm qe) + 1)%Q.
Proof.
  intros Hg Hc HK. apply good_split in Hg. destruct Hg as [Vr Nr].
  destruct raw as [s | [] | | [] mr er]; try discriminate;
    try (revert Hc; destruct s; simpl; intros [= <-]; contradiction).
  change (int 50) with (S754_finite false 7036874417766400 (-47)) in *.
  pose proof (div_Rnd false false mr 7036874417766400 er (-47)) as HR.
  simpl xorb in HR.
  assert (H50 : (inject_Z 7036874417766400 * 2 ^ (-47) == 50)%Q) by by_evaluation.
  destruct (Rnd_shape _ _ HR) as [Hz | [Hi | (qm & qe & Hq)]].
  - rewrite Hz in Hc. injection Hc as <-. contradiction.
  - rewrite Hi in Hc. discriminate.
  - exists mr, er, qm, qe. rewrite Hq in *.
    split; [reflexivity |]. split; [exact Vr |]. split; [reflexivity |].
    split.
    { eapply Rnd_ext; [| exact HR]. simpl F2Q. rewrite H50. reflexivity. }
    simpl math_ceil in Hc. injection Hc as <-.
    pose proof (ceil_finite_bounds false qm qe) as Hb. cbv zeta in Hb.
    simpl F2Q in Hb. simpl Fmag.
    split; [| exact Hb].
    assert (Hqpos : (0 < inject_Z (Z.pos qm) * 2 ^ qe)%Q).
    { apply Qmult_lt_0_compat; [reflexivity | apply Qpow2_pos]. }
    assert (H : (inject_Z 0 < inject_Z (ceil_finite false qm qe))%Q)
      by (change (inject_Z 0) with 0%Q; lra).
    rewrite <- Zlt_Qlt in H. lia.
Qed.

(** The integer price is never below the rounded cost. *)
Lemma final_price_ge_total_cost (base total margin : spec_float) (b : breakdown) :
  good total = true ->
  at_least (1149 # 1000) (int 1 + margin)%f64 ->
  (let* final_price := round_up_to_50 (final_price_raw total margin) in
   price_breakdown base total final_price) = Ok b ->
  (F2Q (totalCost b) <= inject_Z (finalPrice b))%Q.
Proof.
  intros Gt Hc Hb.
  destruct (pricing_Ok_inv _ _ _ _ Hb) as (K & Hceil & HK & -> & ->).
  set (c := (int 1 + margin)%f64) in *.
  assert (Graw : good (final_price_raw total margin) = true).
  { unfold final_price_raw. apply good_mul; [exact Gt |]. eapply at_least_good, Hc. }
  destruct (quotient_ceiling _ K Graw Hceil HK)
    as (mr & er & qm & qe & Hraw & Vraw & Hq & HRq & HK1 & HKq & _).
  rewrite Hraw in HRq. clear Hq Hceil Graw Hb.
  unfold final_price_raw in Hraw. fold c in Hraw.
  apply good_split in Gt. destruct Gt as [Vt Nt].
  destruct Hc as [Vc Hc].
  destruct total as [s | [] | | [] mt et]; try discriminate;
    destruct c as [sc | [] | | [] mc ec] eqn:Ec; try contradiction; try discriminate.
  pose proof (mul_Rnd false false mt mc et ec Vt Vc) as HRraw.
  simpl xorb in HRraw. rewrite Hraw in HRraw.
  pose proof (py_round_0_le mt et Vt) as Hround. cbv zeta in Hround.
  simpl F2Q in Hc. simpl F2Q in Hround at 2.
  set (t := (inject_Z (Z.pos mt) * 2 ^ et)%Q) in *.
  set (cq := (inject_Z (Z.pos mc) * 2 ^ ec)%Q) in *.
  assert (Ht : (0 < t)%Q).
  { apply Qmult_lt_0_compat; [reflexivity | apply Qpow2_pos]. }
  rewrite inject_Z_mult. change (inject_Z 50) with 50%Q.
  assert (HK1q : (1 <= inject_Z K)%Q).
  { change 1%Q with (inject_Z 1). rewrite <- Zle_Qle. exact HK1. }
  destruct (Qlt_le_dec t 32) as [Hsmall | Hbig]; [lra |].
  assert (Htiny : (2 ^ (-1021) <= 1)%Q) by by_evaluation.
  assert (Htc : (t * (1149 # 1000) <= t * cq)%Q).
  { apply Qmult_le_l; assumption. }
  assert (Hlo1 : (2 ^ (-1021) <= t * cq)%Q) by lra.
  pose proof (Rnd_rel_lower _ _ HRraw eq_refl Hlo1) as Hrel1.
  simpl Fmag in Hrel1.
  set (rq := (inject_Z (Z.pos mr) * 2 ^ er)%Q) in *.
  simpl F2Q in HRq. fold rq in HRq.
  assert (Hdiv : (rq / 50 == rq * (1 # 50))%Q) by (field).
  assert (Hlo2 : (2 ^ (-1021) <= rq / 50)%Q) by (rewrite Hdiv; lra).
  pose proof (Rnd_rel_lower _ _ HRq eq_refl Hlo2) as Hrel2.
  rewrite Hdiv in Hrel2. simpl Fmag in Hrel2, HKq.
  lra.
Qed.

(** Below [2 ^ 53] the integer price is the smallest multiple of 50 that
    is not below the cost times the margin, as computed. *)
Lemma final_price_smallest_multiple (base total raw : spec_float) (b : breakdown) :
  good raw = true ->
  (let* final_price := round_up_to_50 raw in
   price_breakdown base total final_price) = Ok b ->
  (F2Q raw < 2 ^ 53)%Q ->
  (inject_Z (finalPrice b) - 50 < F2Q raw <= inject_Z (finalPrice b))%Q.
Proof.
  intros Graw Hb Hlt.
  destruct (pricing_Ok_inv _ _ _ _ Hb) as (K & Hceil & HK & -> & _).
  destruct (quotient_ceiling _ K Graw Hceil HK)
    as (mr & er & qm & qe & -> & Vraw & _ & HRq & HK1 & HKq).
  clear Hb Hceil Graw.
  simpl F2Q in *. set (rq := (inject_Z (Z.pos mr) * 2 ^ er)%Q) in *.
  set (q := S754_finite false qm qe) in *.
  rewrite inject_Z_mult. change (inject_Z 50) with 50%Q.
  assert (Hdiv : (rq / 50 == rq * (1 # 50))%Q) by field.
  assert (Hrpos : (0 < rq)%Q).
  { apply Qmult_lt_0_compat; [reflexivity | apply Qpow2_pos]. }
  assert (HK1q : (1 <= inject_Z K)%Q).
  { change 1%Q with (inject_Z 1). rewrite <- Zle_Qle. exact HK1. }
  assert (H53 : (2 ^ 53 == 9007199254740992)%Q) by reflexivity.
  rewrite H53 in Hlt.
  split.
  - (* the price is not a whole step above the cost *)
    apply Qnot_le_lt. intros Hcontra.
    destruct (Rnd_upper false _ (2 ^ 52) q HRq) as [_ Hq52].
    { apply representable_pow2. lia. }
    { rewrite Hdiv. change (2 ^ 52)%Q with 4503599627370496%Q. lra. }
    { by_evaluation. }
    change (2 ^ 52)%Q with 4503599627370496%Q in Hq52.
    assert (HKz : K <= 2 ^ 52).
    { assert (H : (inject_Z K < inject_Z (2 ^ 52 + 1))%Q).
      { change (inject_Z (2 ^ 52 + 1)) with 4503599627370497%Q. lra. }
      rewrite <- Zlt_Qlt in H. lia. }
    destruct (Rnd_upper false _ (inject_Z (K - 1)) q HRq) as [_ Hq].
    { apply representable_Z. lia. }
    { rewrite Hdiv, inject_Z_sub. change (inject_Z 1) with 1%Q. lra. }
    { apply Qle_lt_trans with (inject_Z (2 ^ 52)); [rewrite <- Zle_Qle; lia | by_evaluation]. }
    rewrite inject_Z_sub in Hq. change (inject_Z 1) with 1%Q in Hq. lra.
  - (* the price is not below the cost *)
    apply Qnot_lt_le. intros Hcontra.
    destruct (bounded_facts mr er Vraw) as (Her & Hmr & Hnr).
    assert (Hmrq : (inject_Z (Z.pos mr) < 9007199254740992)%Q).
    { change 9007199254740992%Q with (inject_Z (2 ^ 53)). rewrite <- Zlt_Qlt. exact Hmr. }
    pose proof (Qpow2_pos er) as Ha.
    (* the exponent of the cost is not positive *)
    assert (Her0 : er <= 0).
    { destruct (Z_le_gt_dec er 0) as [H | H]; [exact H | exfalso].
      assert (Hm52 : (4503599627370496 <= inject_Z (Z.pos mr))%Q).
      { change 4503599627370496%Q with (inject_Z (2 ^ 52)). rewrite <- Zle_Qle.
        apply Hnr. lia. }
      assert (H2 : (2 <= 2 ^ er)%Q).
      { change 2%Q with (2 ^ 1)%Q at 1. apply Qpow2_le. lia. }
      assert (H3 : (4503599627370496 * 2 <= inject_Z (Z.pos mr) * 2 ^ er)%Q).
      { apply Qle_trans with (inject_Z (Z.pos mr) * 2)%Q.
        - apply Qmult_le_r; [reflexivity | exact Hm52].
        - apply Qmult_le_l; [reflexivity | exact H2]. }
      fold rq in H3. lra. }
    (* so the cost exceeds the price by one unit of its last place at least *)
    set (P := 2 ^ (- er)). assert (HP : 0 < P) by (apply pow2_pos; lia).
    assert (HPq : (0 < inject_Z P)%Q) by (apply inject_Z_pos; exact HP).
    assert (HPa : (inject_Z P * 2 ^ er == 1)%Q).
    { unfold P. rewrite Qpow2_inject by lia. rewrite <- Qpow2_add.
      replace (- er + er) with 0 by lia. reflexivity. }
    assert (Hint : (inject_Z (50 * K * P + 1) <= inject_Z (Z.pos mr))%Q).
    { rewrite <- Zle_Qle.
      assert (H : (inject_Z (50 * K * P) < inject_Z (Z.pos mr))%Q).
      { rewrite !inject_Z_mult. change (inject_Z 50) with 50%Q.
        assert (Hr : (inject_Z (Z.pos mr) == rq * inject_Z P)%Q).
        { unfold rq. rewrite <- Qmult_assoc, (Qmult_comm (2 ^ er)), HPa. ring. }
        rewrite Hr.
        apply Qmult_lt_r; [exact HPq |]. lra. }
      rewrite <- Zlt_Qlt in H. lia. }
    assert (Hgap : (inject_Z K * 50 + 2 ^ er <= rq)%Q).
    { unfold rq.
      apply Qle_trans with (inject_Z (50 * K * P + 1) * 2 ^ er)%Q.
      - rewrite inject_Z_plus, !inject_Z_mult.
        change (inject_Z 50) with 50%Q. change (inject_Z 1) with 1%Q.
        apply Qle_lteq. right.
        transitivity (inject_Z K * 50 * (inject_Z P * 2 ^ er) + 2 ^ er)%Q;
          [rewrite HPa; ring | ring].
      - apply Qmult_le_r; [exact Ha | exact Hint]. }
    (* while rounding moved the quotient by half a unit at most *)
    destruct HRq as (m2 & E & x & Hv & HE & Hx & Hnorm & Hm2 & Hpack).
    destruct (Rnd_m2 x m2 E Hx Hnorm Hm2) as [Hm2z _].
    assert (Hval : (Fmag q == inject_Z m2 * 2 ^ E)%Q).
    { rewrite Hpack. apply pack_value; [lia |]. rewrite <- Hpack. reflexivity. }
    assert (Htiny : (2 ^ (-1021) <= 1)%Q) by by_evaluation.
    assert (HEn : -1074 < E).
    { apply (Rnd_normal (rq / 50) m2 E x Hv HE Hx). rewrite Hdiv. lra. }
    specialize (Hnorm HEn).
    pose proof (Qpow2_pos E) as Hb.
    assert (H1 : (4503599627370496 * 2 ^ E <= x * 2 ^ E)%Q)
      by (apply Qmult_le_r; assumption).
    assert (H2 : ((x - (1 # 2)) * 2 ^ E <= inject_Z m2 * 2 ^ E)%Q)
      by (apply Qmult_le_r; [assumption | tauto]).
    assert (H3 : (inject_Z (Z.pos mr) * 2 ^ er < 9007199254740992 * 2 ^ er)%Q)
      by (apply Qmult_lt_r; assumption).
    fold rq in H3.
    rewrite Hdiv in Hv. rewrite Hval in HKq.
    assert (H4 : ((x - (1 # 2)) * 2 ^ E == x * 2 ^ E - (1 # 2) * 2 ^ E)%Q) by ring.
    rewrite H4 in H2. rewrite <- Hv in H1, H2.
    lra.
Qed.

(** ** Claim C2 *)

Lemma pricing_properties (base total margin : spec_float) (b : breakdown) :
  good total = true ->
  at_least (1149 # 1000) (int 1 + margin)%f64 ->
  (let* final_price := round_up_to_50 (final_price_raw total margin) in
   price_breakdown base total final_price) = Ok b ->
  price_properties total (final_price_raw total margin) b.
Proof.
  intros Gt Hc Hb.
  assert (Graw : good (final_price_raw total margin) = true).
  { unfold final_price_raw. apply good_mul; [exact Gt |]. eapply at_least_good, Hc. }
  destruct (pricing_Ok_inv _ _ _ _ Hb) as (K & Hceil & HK & Hfp & Htc).
  split.
  { unfold round_up_to_50. rewrite truediv_const by reflexivity. step_bind.
    rewrite Hceil, Hfp. reflexivity. }
  split; [rewrite Hfp; apply Z.mod_mul; lia |].
  split; [exact Htc |].
  split.
  - apply (final_price_ge_total_cost base total margin b Gt Hc Hb).
  - apply (final_price_smallest_multiple base total _ b Graw Hb).
Qed.

(** C2, counterexample: for a device that costs [2 * 10 ^ 17] the price is
    229999999999999950, below the cost times 1.15 both as the code computes
    it (229999999999999968) and exactly (230000000000000000, itself a
    multiple of 50). *)
Lemma price_below_cost_times_margin :
  let inputs := flat_device (VInt (2 * 10 ^ 17)) in
  let raw := final_price_raw (int (2 * 10 ^ 17)) (lit 15 (-2)) in
  validate_device_inputs inputs = Ok true /\
  device_total_cost_of inputs = Ok (int (2 * 10 ^ 17)) /\
  (exists b, calculate_device_price inputs = Ok b /\
             finalPrice b = 229999999999999950 /\
             totalCost b = int (2 * 10 ^ 17)) /\
  (F2Q raw == 229999999999999968)%Q /\
  (F2Q (int (2 * 10 ^ 17)) * (115 # 100) == 230000000000000000)%Q /\
  (inject_Z 229999999999999950 < F2Q raw)%Q.
Proof.
  cbv zeta. split; [vm_compute; reflexivity |]. split; [vm_compute; reflexivity |].
  split; [eexists; split; [vm_compute; reflexivity | split; vm_compute; reflexivity] |].
  repeat split; by_evaluation.
Qed.

(** For a supplement whose cost is exactly 5000 the price is 6900, although
    5000 times 1.37 is 6850 in exact decimal arithmetic: the product is
    6850.000000000001 as the code computes it. *)
Lemma price_6900_for_cost_5000 :
  let inputs := plain_supplement (VInt 3300) (VInt 1) in
  supplement_total_cost_of inputs = Ok (int 5000) /\
  (exists b, calculate_supplement_price inputs = Ok b /\ finalPrice b = 6900) /\
  (6850 < F2Q (final_price_raw (int 5000) (lit 37 (-2))) < 6851)%Q.
Proof.
  cbv zeta. split; [vm_compute; reflexivity |].
  split; [eexists; split; vm_compute; reflexivity |].
  split; by_evaluation.
Qed.

(** C2, as amended: the price of a returned breakdown is 50 times the
    ceiling of the double quotient by 50 of the double product of the cost
    and [1 + margin_percent]; it is a multiple of 50 and is at least the
    returned [totalCost]; when that product is below [2 ^ 53] the price is
    the smallest multiple of 50 that is not below it. *)
Theorem final_price_multiple_of_50 (inputs : gmap string pyval) (b : breakdown) :
  wf_inputs inputs = true ->
  (validate_supplement_inputs inputs = Ok true ->
   calculate_supplement_price inputs = Ok b ->
   exists t, supplement_total_cost_of inputs = Ok t /\
             price_properties t (final_price_raw t (lit 37 (-2))) b) /\
  (validate_device_inputs inputs = Ok true ->
   calculate_device_price inputs = Ok b ->
   exists t, device_total_cost_of inputs = Ok t /\
             price_properties t (final_price_raw t (lit 15 (-2))) b).
Proof.
  intros Hwf. split; intros Hv Hb.
  - destruct (supplement_unfold inputs Hwf Hv)
      as [(_ & msg & Hr & _) | (p & fx & w & c & d & xf & Gp & Gfx & Gw & Gc & Gd & Gxf & _ & _ & Ht & Hr)];
      [congruence |].
    destruct (supplement_total_cost_bound p fx w c d xf Gp Gfx Gw Gc Gd Gxf)
      as (t & Ht' & Hbound).
    rewrite Ht' in Ht, Hr. rewrite Hr in Hb. revert Hb.
    change (bind (Ok t) ?k) with (k t). cbv beta. intros Hb.
    exists t. split; [exact Ht |].
    apply (pricing_properties (p * fx)%f64 t (lit 37 (-2)) b).
    + destruct Hbound as [Hnan | Hal]; [destruct t; try discriminate; reflexivity |].
      eapply at_least_good, Hal.
    + eapply at_least_const; [reflexivity | reflexivity | by_evaluation].
    + exact Hb.
  - destruct (device_unfold inputs Hwf Hv)
      as [(_ & msg & Hr & _) | (p & fx & t & Gp & Gfx & Gt & Ht & Hr)]; [congruence |].
    rewrite Hr in Hb. exists t. split; [exact Ht |].
    apply (pricing_properties (p * fx)%f64 t (lit 15 (-2)) b).
    + exact Gt.
    + eapply at_least_const; [reflexivity | reflexivity | by_evaluation].
    + exact Hb.
Qed.

Lemma final_price_multiple_of_50_witness :
  exists t, supplement_total_cost_of supplement_scenario = Ok t /\
            price_properties t (final_price_raw t (lit 37 (-2))) supplement_scenario_result.
Proof.
  refine (proj1 (final_price_multiple_of_50 supplement_scenario
                   supplement_scenario_result _) _ _).
  - vm_compute. reflexivity.
  - vm_compute. reflexivity.
  - vm_compute. reflexivity.
Defined.

(** ** Claims C5 and C6: the two scenarios *)

(** C5: the supplement scenario passes validation and its breakdown is
    baseCost 500, totalCost 1147, finalPrice 1600, profit 453 and margin
    28.3. *)
Theorem supplement_scenario_breakdown :
  validate_supplement_inputs supplement_scenario = Ok true /\
  calculate_supplement_price supplement_scenario = Ok supplement_scenario_result.
Proof. split; vm_compute; reflexivity. Qed.

(** C6: the device scenario passes validation and its breakdown is
    baseCost 5000, totalCost 65000, finalPrice 74750, profit 9750 and
    margin 13.0. *)
Theorem device_scenario_breakdown :
  validate_device_inputs device_scenario = Ok true /\
  calculate_device_price device_scenario = Ok device_scenario_result.
Proof. split; vm_compute; reflexivity. Qed.

(** ** Claim C7: categorical values that are not in the table *)

Lemma table_get_miss (a : attribute) (v : pyval) :
  hashable v = true -> in_table a v = false ->
  table_get (MULTIPLIERS a) v (int 1) = Ok (int 1).
Proof.
  destruct v; simpl; try reflexivity; try discriminate.
  intros _. destruct (assoc s (MULTIPLIERS a)); [discriminate | reflexivity].
Qed.

Lemma dict_get_insert_eq (inputs : gmap string pyval) (key : string) (v : pyval) :
  dict_get (<[key:=v]> inputs) key = v.
Proof. unfold dict_get. by rewrite lookup_insert_eq. Qed.

Lemma dict_get_delete_eq (inputs : gmap string pyval) (key : string) :
  dict_get (delete key inputs) key = VNone.
Proof. unfold dict_get. by rewrite lookup_delete_eq. Qed.

Lemma dict_get_insert_delete_ne (inputs : gmap string pyval) (key k : string) (v : pyval) :
  key <> k -> dict_get (<[key:=v]> inputs) k = dict_get (delete key inputs) k.
Proof.
  intros H. unfold dict_get. by rewrite lookup_insert_ne, lookup_delete_ne.
Qed.

Lemma dict_get_default_insert_delete_ne
    (inputs : gmap string pyval) (key k : string) (v d : pyval) :
  key <> k ->
  dict_get_default (<[key:=v]> inputs) k d = dict_get_default (delete key inputs) k d.
Proof.
  intros H. unfold dict_get_default. by rewrite lookup_insert_ne, lookup_delete_ne.
Qed.

(** Every lookup of a key other than [key] reads the same value in
    [<[key:=v]> inputs] and in [delete key inputs]. *)
Ltac same_lookups key v inputs :=
  repeat match goal with
  | |- context [dict_get_default (<[key:=v]> inputs) ?k ?d] =>
      replace (dict_get_default (<[key:=v]> inputs) k d)
        with (dict_get_default (delete key inputs) k d)
        by (symmetry; apply dict_get_default_insert_delete_ne; discriminate)
  | |- context [dict_get (<[key:=v]> inputs) ?k] =>
      lazymatch k with
      | key => fail
      | _ => replace (dict_get (<[key:=v]> inputs) k)
               with (dict_get (delete key inputs) k)
               by (symmetry; apply dict_get_insert_delete_ne; discriminate)
      end
  end.

(** C7, counterexample: a JSON array as [productShape] is not a key of the
    table, passes validation, and makes the lookup raise [TypeError], while
    the same input without the field is priced. *)
Lemma list_valued_attribute_raises :
  let inputs := <["productShape"%string := VList []]> supplement_scenario in
  validate_supplement_inputs inputs = Ok true /\
  in_table productShape (VList []) = false /\
  calculate_supplement_price inputs = Raise (TypeError "unhashable type: 'list'") /\
  calculate_supplement_price (delete "productShape"%string inputs) =
    Ok supplement_scenario_result.
Proof. cbv zeta. repeat split; vm_compute; reflexivity. Qed.

(** C7, as amended: for each categorical attribute, a value that can be
    hashed (a string, a number, a boolean or null) and is not a key of the
    multiplier table yields the multiplier 1 and no error, and either
    formula gives on an input with such a value what it gives on the same
    input without the field. *)
Theorem unknown_categorical_value_is_neutral
    (key : string) (a : attribute) (v : pyval) (inputs : gmap string pyval) :
  In (key, a) categorical_fields ->
  hashable v = true ->
  in_table a v = false ->
  table_get (MULTIPLIERS a) v (int 1) = Ok (int 1) /\
  calculate_supplement_price (<[key:=v]> inputs) =
    calculate_supplement_price (delete key inputs) /\
  calculate_device_price (<[key:=v]> inputs) =
    calculate_device_price (delete key inputs).
Proof.
  intros Hin Hh Ht.
  pose proof (table_get_miss a v Hh Ht) as Hmiss.
  split; [exact Hmiss |].
  unfold calculate_supplement_price, calculate_device_price.
  simpl in Hin.
  destruct Hin as [H | [H | [H | [H | [H | []]]]]]; inversion H; subst key a; clear H;
    match goal with
    | |- context [<[?key:=v]> inputs] => same_lookups key v inputs
    end;
    rewrite ?dict_get_insert_eq, ?dict_get_delete_eq, ?Hmiss;
    split; reflexivity.
Qed.

Lemma unknown_categorical_value_is_neutral_witness :
  calculate_supplement_price (<["productShape"%string := VStr "Unknown"]> supplement_scenario) =
  calculate_supplement_price (delete "productShape"%string supplement_scenario).
Proof.
  refine (proj1 (proj2 (unknown_categorical_value_is_neutral
            "productShape" productShape (VStr "Unknown") supplement_scenario _ _ _))).
  - simpl. left. reflexivity.
  - reflexivity.
  - reflexivity.
Defined.

(** ** Claims C8 and C10: the category of a request *)

Lemma py_eq_str_false (c : pyval) (s : string) :
  c <> VStr s -> py_eq_str c s = false.
Proof.
  destruct c; simpl; try reflexivity.
  intros H. apply String.eqb_neq. congruence.
Qed.

Lemma size_lookup_Some (data : gmap string pyval) (k : string) (v : pyval) :
  data !! k = Some v -> bool_decide (size data = 0%nat) = false.
Proof.
  intros H. apply bool_decide_eq_false. intros Hs.
  apply map_size_empty_iff in Hs. subst data. by rewrite lookup_empty in H.
Qed.

(** C8: a request whose category is present and is neither ["supplement"]
    nor ["device"] is answered with status 400, and neither validator and
    neither formula is called (the trace of calls is empty and no row is
    stored). *)
Theorem unknown_category_rejected
    (debug : bool) (data : gmap string pyval) (c : pyval) (db : list Calculation) :
  data !! "category"%string = Some c ->
  c <> VStr "supplement" ->
  c <> VStr "device" ->
  handle_calculate debug (JObject data) db =
    {| resp := JsonError 400 "Invalid category. Must be 'supplement' or 'device'" None;
       trace := [];
       rows := db |}.
Proof.
  intros Hc Hs Hd. unfold handle_calculate.
  rewrite (size_lookup_Some _ _ _ Hc).
  unfold dict_get_default. rewrite Hc.
  by rewrite (py_eq_str_false _ _ Hs), (py_eq_str_false _ _ Hd).
Qed.

Lemma unknown_category_rejected_witness :
  handle_calculate false
    (JObject (<["category"%string := VStr "gadget"]> device_scenario)) [] =
    {| resp := JsonError 400 "Invalid category. Must be 'supplement' or 'device'" None;
       trace := [];
       rows := [] |}.
Proof.
  apply (unknown_category_rejected false
           (<["category"%string := VStr "gadget"]> device_scenario) (VStr "gadget") []).
  - reflexivity.
  - discriminate.
  - discriminate.
Defined.

(** C10, counterexample: the empty object has no category field, and is
    rejected for carrying no data; no validator is called. *)
Lemma empty_payload_not_validated :
  (∅ : gmap string pyval) !! "category"%string = None /\
  handle_calculate false (JObject ∅) [] =
    {| resp := JsonError 400 "No input data provided" None; trace := []; rows := [] |}.
Proof. split; reflexivity. Qed.

(** C10, as amended: a request that is a non-empty object without a
    category field is handled as a supplement: the supplement validator is
    called first, no device function is called, and when validation passes
    the supplement formula is called; its breakdown is returned and stored
    under the category ["supplement"]. *)
Theorem missing_category_defaults_to_supplement
    (debug : bool) (data : gmap string pyval) (db : list Calculation) :
  data !! "category"%string = None ->
  data <> ∅ ->
  let out := handle_calculate debug (JObject data) db in
  out = calculate_and_store debug true data db /\
  hd_error (trace out) = Some CallValidateSupplement /\
  (forall e, In e (trace out) -> e <> CallValidateDevice /\ e <> CallCalculateDevice) /\
  (validate_supplement_inputs data = Ok true ->
     nth_error (trace out) 1 = Some CallCalculateSupplement /\
     forall b, calculate_supplement_price data = Ok b ->
       resp out = JsonResults b /\
       rows out = db ++ [{| category := "supplement"; inputs := data; results := b |}]).
Proof.
  intros Hc Hne out.
  assert (Hout : out = calculate_and_store debug true data db).
  { unfold out, handle_calculate.
    rewrite bool_decide_eq_false_2.
    - unfold dict_get_default. by rewrite Hc.
    - intros Hs. by apply map_size_empty_iff in Hs. }
  split; [exact Hout |]. rewrite Hout. clear out Hout.
  unfold calculate_and_store.
  destruct (validate_supplement_inputs data) as [t | e] eqn:Hv; simpl.
  - destruct (calculate_supplement_price data) as [b | e] eqn:Hcalc; simpl.
    + split; [reflexivity |]. split.
      * intros e [<- | [<- | [<- | [<- | []]]]]; split; discriminate.
      * intros _. split; [reflexivity |]. intros b' [= <-]. split; reflexivity.
    + destruct e; simpl; (split; [reflexivity |]); split;
        try (intros _; split; [reflexivity | intros b' [=]]);
        intros e; simpl; intuition (subst; discriminate).
  - destruct e; simpl; (split; [reflexivity |]); split;
      try (intros [=]);
      intros e; simpl; intuition (subst; discriminate).
Qed.

Lemma missing_category_defaults_to_supplement_witness :
  hd_error (trace (handle_calculate false
                     (JObject (delete "importFrom"%string supplement_scenario)) [])) =
    Some CallValidateSupplement.
Proof.
  refine (proj1 (proj2 (missing_category_defaults_to_supplement false
                          (delete "importFrom"%string supplement_scenario) [] _ _))).
  - reflexivity.
  - intros H. apply (f_equal (fun m : gmap string pyval => m !! "fxRate"%string)) in H.
    vm_compute in H. discriminate.
Defined.

(** ** Claim C3: the validators *)

(** A validator passes exactly when every required field is present and
    converts to a float that is not negative. *)
Lemma validate_fields_Ok_iff (data : gmap string pyval) (fields : list string) :
  validate_fields data fields = Ok true <->
  forall field, In field fields ->
    exists v f, data !! field = Some v /\ py_float v = Ok f /\ nonneg f = true.
Proof.
  split.
  - intros H field Hin. eapply validate_fields_Ok; eassumption.
  - induction fields as [| k rest IH]; intros H; [reflexivity |].
    simpl validate_fields.
    destruct (H k) as (v & f & Hk & Hf & Hn); [left; reflexivity |].
    assert (Hfield : validate_field data k = Ok tt).
    { unfold validate_field. rewrite Hk.
      assert (is_int_float_str v = true) as -> by (destruct v; try discriminate; reflexivity).
      simpl. rewrite Hf, ltb_zero_nonneg, Hn. reflexivity. }
    rewrite Hfield. step_bind. apply IH. intros field Hin. apply H. right. exact Hin.
Qed.

(** When it does not pass it raises [ValueError], or the [OverflowError]
    of [float()] on an integer that is too large for a float. *)
Lemma validate_fields_outcome (data : gmap string pyval) (fields : list string) :
  validate_fields data fields = Ok true \/
  (exists msg, validate_fields data fields = Raise (ValueError msg)) \/
  (validate_fields data fields = Raise int_error /\
   exists field z, In field fields /\ data !! field = Some (VInt z) /\
                   float_of_int z = Raise int_error).
Proof.
  induction fields as [| k rest IH]; [left; reflexivity |].
  simpl validate_fields.
  destruct (validate_field data k) as [[] | e] eqn:Hk.
  - step_bind. destruct IH as [H | [H | (H & field & z & Hin & Hz)]]; [tauto | tauto |].
    right. right. split; [exact H |]. exists field, z. split; [right; exact Hin | exact Hz].
  - step_bind. unfold validate_field in Hk.
    destruct (data !! k) as [v |] eqn:Hv; [| injection Hk as <-; eauto].
    destruct (is_int_float_str v) eqn:Hty; simpl in Hk; [| injection Hk as <-; eauto].
    destruct (py_float v) as [f | e'] eqn:Hf.
    + match type of Hk with context [if ?c then _ else _] => destruct c end;
        [injection Hk as <-; eauto | discriminate].
    + destruct v; try discriminate; simpl in Hf.
      * assert (e' = int_error) as ->.
        { unfold float_of_int in Hf. unfold int_error. destruct (F64.of_Z z); congruence. }
        injection Hk as <-. right. right. split; [reflexivity |].
        exists k, z. split; [left; reflexivity |]. split; [exact Hv | exact Hf].
      * destruct (float_of_string s); [discriminate |]. injection Hf as <-.
        injection Hk as <-. eauto.
Qed.

(** C3: a supplement whose price is the integer [10 ^ 400] makes the
    validator raise [OverflowError], which is not the validation error
    and which the handler answers with status 500; the other cases of the
    claim hold: a missing field, the string ["abc"] and a negative number
    raise [ValueError], and the string ["12.5"] is accepted. *)
Theorem huge_integer_escapes_validation :
  let data := plain_supplement (VInt (10 ^ 400)) (VInt 1) in
  validate_supplement_inputs data = Raise int_error /\
  resp (handle_calculate false (JObject data) []) =
    JsonError 500 "Calculation failed" (Some "Internal server error") /\
  validate_supplement_inputs (delete "fxRate"%string supplement_scenario) =
    Raise (ValueError "Missing required field: fxRate") /\
  validate_supplement_inputs (<["fxRate"%string := VStr "abc"]> supplement_scenario) =
    Raise (ValueError "Invalid numeric value for fxRate") /\
  validate_supplement_inputs (<["purchasePrice"%string := VInt (-1)]> supplement_scenario) =
    Raise (ValueError "Invalid numeric value for purchasePrice") /\
  validate_supplement_inputs (<["fxRate"%string := VStr "12.5"]> supplement_scenario) =
    Ok true.
Proof. cbv zeta. repeat split; vm_compute; reflexivity. Qed.
